(** * ed/db: the hybrid disk + shared-memory SQLite access layer

    A shallow embedding of package [db] (type [EdDb] with [New],
    [UpsertPerson], [RecordSessionActivity], [PrintSessionActivity],
    [initDbSchema], [preparedStatements], [buildPreparedStatements]) and
    theorems about it.

    Go side effects are threaded through a small monad over a [World]:
    the process-wide [database/sql] driver registry, the connections of the
    pool, the two tables, the wall clock, standard output and the answers
    the backend is going to give to the coming commands.  A computation
    ends in one of three ways: it returns, it stops the process through
    [log.Fatal], or it panics.

    The SQL texts are embedded by what they mean on the two tables of the
    schema: [main.person (id INTEGER PRIMARY KEY, name TEXT NOT NULL,
    numUpdates INTEGER DEFAULT 0)] and [mem.sessionActivity (id INTEGER
    PRIMARY KEY, personId INTEGER NOT NULL, dateTime DATETIME DEFAULT
    CURRENT_TIMESTAMP)].  What is outside the Go source is kept to what the
    source relies on:
    - integers are unbounded ([Z]): the 64-bit range of Go's [int] and of
      SQLite's INTEGER is not modelled, and [numUpdates] is never NULL (the
      layer only ever leaves it at its DEFAULT 0 or adds 1 to it);
    - the engine is free in the row of a group on which it evaluates a bare
      column of an aggregate query; that choice is a parameter ([pick]);
    - the failures of the backend and the passing of time are read from a
      script in the world, one entry for each command that reaches the
      backend; an [Exec] runs its statement before it returns, the query of
      the report is run by the [rows.Next()] of the loop, and what fails
      there does not come back through [Query];
    - callers are sequential, one statement runs at a time, and one
      connection serves them all, so that no statement has to be prepared
      again on another connection;
    - the theorems about the calls speak of a handle between [New] and
      [Close]: [Close] empties the pool and the shared memory database goes
      with its last connection, but that the statements of a closed handle
      are closed is not recorded;
    - of ed.go, the two workers are embedded as they run on their own;
      [main], which runs them as goroutines, is not. *)

From stdpp Require Import gmap strings list sorting.
From Stdlib Require Import ZArith Lia.

Open Scope string_scope.
Open Scope list_scope.
Open Scope Z_scope.

(** ** Rows of the two tables *)

(** A row of [main.person]. *)
Record PersonRow := mkPerson {
  p_id : Z;
  p_name : string;
  numUpdates : Z
}.

(** A row of [mem.sessionActivity]; [sa_dateTime] is in seconds, the
    resolution of CURRENT_TIMESTAMP. *)
Record SessionActivityRow := mkActivity {
  sa_id : Z;
  sa_personId : Z;
  sa_dateTime : Z
}.

(** ** The process and its backend *)

(** A connection of the pool: all the layer cares about is whether the
    shared memory database is attached to it as schema [mem]. *)
Record Conn := mkConn { memAttached : bool }.

(** What the backend does with the next command it receives: how many
    seconds pass on the wall clock before the command runs, and whether the
    command fails (disk I/O, lock time-out, ...) and with which message. *)
Record Tick := mkTick {
  elapsed : N;
  fault : option string
}.

(** A line written to standard output. *)
Inductive Line :=
| AttachLine (c : Conn)
    (* fmt.Println("Attach Database to ", newConn) *)
| ResultLine (personID : Z) (personName : string) (when : Z) (numItems : Z)
    (* fmt.Println("Result:", personID, personName, dateTime, numItems) *).

Record World := mkWorld {
  drivers : list string;          (* names given to sql.Register so far *)
  pool : list Conn;               (* idle connections of dbConn *)
  person : list PersonRow;        (* main.person, on disk *)
  sessionActivity : list SessionActivityRow;  (* mem.sessionActivity *)
  clock : Z;                      (* wall clock, seconds *)
  script : list Tick;             (* the backend's coming answers *)
  stdout : list Line
}.

Definition set_drivers (d : list string) (w : World) : World :=
  mkWorld d (pool w) (person w) (sessionActivity w) (clock w) (script w) (stdout w).
Definition set_pool (p : list Conn) (w : World) : World :=
  mkWorld (drivers w) p (person w) (sessionActivity w) (clock w) (script w) (stdout w).
Definition set_person (t : list PersonRow) (w : World) : World :=
  mkWorld (drivers w) (pool w) t (sessionActivity w) (clock w) (script w) (stdout w).
Definition set_sessionActivity (t : list SessionActivityRow) (w : World) : World :=
  mkWorld (drivers w) (pool w) (person w) t (clock w) (script w) (stdout w).
Definition set_script (s : list Tick) (w : World) : World :=
  mkWorld (drivers w) (pool w) (person w) (sessionActivity w) (clock w) s (stdout w).
Definition set_stdout (o : list Line) (w : World) : World :=
  mkWorld (drivers w) (pool w) (person w) (sessionActivity w) (clock w) (script w) o.

(** ** The monad of Go computations *)

Inductive Result (A : Type) :=
| Ret (a : A) (w : World)           (* the call returns [a] *)
| Fatal (msg : string) (w : World)  (* log.Fatal: [msg] is logged, os.Exit(1) *)
| Panic (msg : string) (w : World)  (* a run-time panic nobody recovers *).
Arguments Ret {A} a w.
Arguments Fatal {A} msg w.
Arguments Panic {A} msg w.

Definition M (A : Type) : Type := World -> Result A.

Definition ret {A} (a : A) : M A := fun w => Ret a w.

Definition bind {A B} (m : M A) (k : A -> M B) : M B := fun w =>
  match m w with
  | Ret a w' => k a w'
  | Fatal msg w' => Fatal msg w'
  | Panic msg w' => Panic msg w'
  end.

Notation "x <- m ;; k" := (bind m (fun x => k))
  (at level 100, m at next level, right associativity).
Notation "m ;;; k" := (bind m (fun _ => k))
  (at level 100, right associativity).

(** The world a computation leaves behind, however it ended. *)
Definition world_of {A} (r : Result A) : World :=
  match r with Ret _ w | Fatal _ w | Panic _ w => w end.

Definition get : M World := fun w => Ret w w.
Definition modify (f : World -> World) : M unit := fun w => Ret tt (f w).

(** [log.Fatal(args...)] *)
Definition log_Fatal {A} (msg : string) : M A := fun w => Fatal msg w.

(** [panic(msg)] *)
Definition panic {A} (msg : string) : M A := fun w => Panic msg w.

(** [fmt.Println] *)
Definition Println (l : Line) : M unit :=
  modify (fun w => set_stdout (stdout w ++ [l]) w).

(** Go's [error]: [None] is [nil]. *)
Definition error := option string.

(** What the backend answers to the next command: [None] when it carries
    the command out.  Once the script is used up it carries out everything. *)
Definition next_fault (w : World) : error :=
  match script w with
  | [] => None
  | t :: _ => fault t
  end.

(** The world once the backend has taken the next command: the clock has
    moved on and the answer is used up. *)
Definition advance (w : World) : World :=
  match script w with
  | [] => w
  | t :: ts =>
      mkWorld (drivers w) (pool w) (person w) (sessionActivity w)
              (clock w + Z.of_N (elapsed t)) ts (stdout w)
  end.

(** One command reaches the backend. *)
Definition backend : M error := fun w => Ret (next_fault w) (advance w).

(** ** The SQL texts and what they do to the tables *)

(** A value bound to a named parameter ([interface{}] in the Go maps). *)
Inductive Value := VInt (z : Z) | VText (s : string).

(** The four texts of [preparedStatements]. *)
Inductive Sql :=
| INSERT_OR_IGNORE_person
    (* INSERT OR IGNORE INTO person (id, name) VALUES(:id, :name) *)
| UPDATE_person
    (* UPDATE person SET name=:name, numUpdates=numUpdates + 1 WHERE id=:id *)
| INSERT_sessionActivity
    (* INSERT INTO sessionActivity (personId) VALUES(:personId) *)
| SELECT_sessionActivity
    (* SELECT person.name, person.id, sessionActivity.dateTime, count( * )
       FROM mem.sessionActivity LEFT OUTER JOIN main.person
         ON mem.sessionActivity.personId = main.person.id
       GROUP BY main.person.id ORDER BY mem.sessionActivity.dateTime ASC *).

(** What [SET name=:name, numUpdates=numUpdates + 1 WHERE id=:id] makes of
    a row. *)
Definition updated (id : Z) (name : string) (r : PersonRow) : PersonRow :=
  if decide (p_id r = id) then mkPerson (p_id r) name (numUpdates r + 1) else r.

(** [UPDATE person SET name=:name, numUpdates=numUpdates + 1 WHERE id=:id] *)
Definition update_person (id : Z) (name : string) (t : list PersonRow)
  : list PersonRow :=
  updated id name <$> t.

(** The rows a statement with [WHERE id=:id] touches. *)
Definition rows_with_id (id : Z) (t : list PersonRow) : list PersonRow :=
  filter (λ r, p_id r = id) t.

(** [INSERT OR IGNORE INTO person (id, name) VALUES(:id, :name)]: a row
    whose primary key is taken is dropped without an error; [numUpdates]
    gets its DEFAULT 0. *)
Definition insert_or_ignore_person (id : Z) (name : string)
  (t : list PersonRow) : list PersonRow :=
  if decide (id ∈ p_id <$> t) then t else t ++ [mkPerson id name 0].

Definition inserted_rows (id : Z) (t : list PersonRow) : Z :=
  if decide (id ∈ p_id <$> t) then 0 else 1.

(** The key SQLite gives to a row inserted without one: one more than the
    largest key in the table, 1 in an empty table. *)
Definition next_rowid (t : list SessionActivityRow) : Z :=
  1 + foldr Z.max 0 (sa_id <$> t).

(** [INSERT INTO sessionActivity (personId) VALUES(:personId)], run when
    the clock shows [now]. *)
Definition insert_sessionActivity (pid now : Z) (t : list SessionActivityRow)
  : list SessionActivityRow :=
  t ++ [mkActivity (next_rowid t) pid now].

(** *** The report query *)

(** A row of the join: an activity and the person it matches, if any. *)
Record Joined := mkJoined {
  j_activity : SessionActivityRow;
  j_person : option PersonRow
}.

(** The rows an activity contributes to the left outer join: one for each
    person with its [personId], and one without a person when there is
    none. *)
Definition join_activity (ps : list PersonRow) (a : SessionActivityRow)
  : list Joined :=
  match rows_with_id (sa_personId a) ps with
  | [] => [mkJoined a None]
  | matches => mkJoined a ∘ Some <$> matches
  end.

(** [FROM mem.sessionActivity LEFT OUTER JOIN main.person ON
    mem.sessionActivity.personId = main.person.id] *)
Definition left_outer_join (acts : list SessionActivityRow)
  (ps : list PersonRow) : list Joined :=
  acts ≫= join_activity ps.

(** [GROUP BY main.person.id]: the key of a joined row; NULL when no person
    matches, and all NULLs fall in one group. *)
Definition group_key (j : Joined) : option Z := p_id <$> j_person j.

Definition group (k : option Z) (js : list Joined) : list Joined :=
  filter (λ j, group_key j = k) js.

(** A row of the result, under the aliases of the SELECT list; the first
    two columns are NULL when no person matches. *)
Record ReportRow := mkReport {
  personName : option string;
  personId : option Z;
  dateTime : Z;
  numItems : Z
}.

Definition earlier (r1 r2 : ReportRow) : Prop := dateTime r1 ≤ dateTime r2.

Global Instance earlier_dec r1 r2 : Decision (earlier r1 r2).
Proof. unfold earlier. apply _. Defined.

(** [ORDER BY mem.sessionActivity.dateTime ASC].  The order among rows
    with the same [dateTime] is the sort's own; the engine has its own as
    well (by the key of the group), and what is proved of the rows holds
    for either. *)
Definition order_by_dateTime (l : list ReportRow) : list ReportRow :=
  merge_sort earlier l.

Section Engine.

(** [name], [id] and [dateTime] are bare columns of an aggregate query:
    SQLite evaluates them on one row of the group, the same row for all
    three, and leaves open which.  [pick] is that choice. *)
Variable pick : list Joined → Joined.

Definition report_row (g : list Joined) : ReportRow :=
  let j := pick g in
  mkReport (p_name <$> j_person j) (p_id <$> j_person j)
           (sa_dateTime (j_activity j)) (Z.of_nat (length g)).

(** One row for each key of the join, before the rows are ordered. *)
Definition grouped_rows (acts : list SessionActivityRow)
  (ps : list PersonRow) : list ReportRow :=
  let js := left_outer_join acts ps in
  (λ k, report_row (group k js)) <$> remove_dups (group_key <$> js).

(** The rows [getSessionActivity] yields. *)
Definition select_sessionActivity (acts : list SessionActivityRow)
  (ps : list PersonRow) : list ReportRow :=
  order_by_dateTime (grouped_rows acts ps).

End Engine.

(** A [pick] the engine may make: a row of the group it is given. *)
Definition picks_member (pick : list Joined → Joined) : Prop :=
  ∀ g, g ≠ [] → pick g ∈ g.

(** ** database/sql, sqlx and the SQLite driver *)

(** [*sqlx.NamedStmt]: a compiled statement, known by its text. *)
Record NamedStmt := mkNamedStmt { QueryString : Sql }.

(** [(sql.Result, error)] of an [Exec]. *)
Inductive ExecResult :=
| Done (rowsAffected : Z)
| Failed (err : string).

Definition bind_error : string := "sqlx: could not bind the named parameters".

(** The backend runs one command on the tables; a command it fails
    changes nothing. *)
Definition run (change : World -> World) (affected : World -> Z)
  : M ExecResult :=
  e <- backend ;;
  match e with
  | Some msg => ret (Failed msg)
  | None => w <- get ;; modify change ;;; ret (Done (affected w))
  end.

(** [NamedStmt.Exec(arg)]: the named parameters are looked up in the
    map first; then the statement goes to the backend.  The layer binds
    integers to [:id] and [:personId] and text to [:name]; a map without
    such a value is rejected before the backend is reached. *)
Definition NamedStmt_Exec (s : NamedStmt) (arg : gmap string Value)
  : M ExecResult :=
  match QueryString s with
  | INSERT_OR_IGNORE_person =>
      match arg !! "id", arg !! "name" with
      | Some (VInt id), Some (VText name) =>
          run (fun w => set_person (insert_or_ignore_person id name (person w)) w)
              (fun w => inserted_rows id (person w))
      | _, _ => ret (Failed bind_error)
      end
  | UPDATE_person =>
      match arg !! "name", arg !! "id" with
      | Some (VText name), Some (VInt id) =>
          run (fun w => set_person (update_person id name (person w)) w)
              (fun w => Z.of_nat (length (rows_with_id id (person w))))
      | _, _ => ret (Failed bind_error)
      end
  | INSERT_sessionActivity =>
      match arg !! "personId" with
      | Some (VInt pid) =>
          run (fun w => set_sessionActivity
                          (insert_sessionActivity pid (clock w) (sessionActivity w)) w)
              (fun _ => 1)
      | _ => ret (Failed bind_error)
      end
  | SELECT_sessionActivity => run (fun w => w) (fun _ => 0)
  end.

Section Query.

Variable pick : list Joined -> Joined.

(** [NamedStmt.Query(arg)] and the [rows.Next()] that follow it: the rows
    the loop over [rows] gets, or the error [Query] returns.  [Query] binds
    the arguments and hands out [rows]; the SELECT goes to the backend when
    it is stepped, in [rows.Next()].  If the backend fails it there,
    [rows.Next()] is false and the loop gets no row: the failure is kept in
    [rows] for [rows.Err()], and [Query] has returned no error.  A text
    that is not a SELECT is carried out and yields no row. *)
Definition NamedStmt_Query (s : NamedStmt) (arg : gmap string Value)
  : M (list ReportRow + string) :=
  match QueryString s with
  | SELECT_sessionActivity =>
      e <- backend ;;
      match e with
      | Some _ => ret (inl [])
      | None =>
          w <- get ;;
          ret (inl (select_sessionActivity pick (sessionActivity w) (person w)))
      end
  | _ =>
      r <- NamedStmt_Exec s arg ;;
      match r with
      | Failed msg => ret (inr msg)
      | Done _ => ret (inl [])
      end
  end.

End Query.

(** The zero [time.Time], 0001-01-01 00:00:00 UTC, in seconds. *)
Definition zeroTime : Z := -62135596800.

(** [rows.Scan(&personName, &personID, &dateTime, &numItems)] into fresh
    variables of types [string], [int64], [time.Time], [int64]: the
    columns are converted in order and the first NULL stops the scan with
    an error, leaving the remaining variables at their zero values. *)
Definition Scan (r : ReportRow) : (string * Z * Z * Z) * error :=
  match personName r with
  | None =>
      (("", 0, zeroTime, 0),
       Some "sql: Scan error on column index 0: converting NULL to string is unsupported")
  | Some name =>
      match personId r with
      | None =>
          ((name, 0, zeroTime, 0),
           Some "sql: Scan error on column index 1: converting NULL to int64 is unsupported")
      | Some id => ((name, id, dateTime r, numItems r), None)
      end
  end.

(** ** Package db *)

(** [EdDb]; the pool behind [dbConn] is [pool] of the world. *)
Record EdDb := mkEdDb {
  statements : gmap string NamedStmt
}.

(** [preparedStatements()], in the order of the source (Go ranges over
    the map in an order of its own). *)
Definition preparedStatements : list (string * Sql) :=
  [ ("insertPerson", INSERT_OR_IGNORE_person);
    ("updatePerson", UPDATE_person);
    ("recordSessionActivity", INSERT_sessionActivity);
    ("getSessionActivity", SELECT_sessionActivity) ].

(** [db.statements[title]] followed by a method call: a title that is not
    in the map gives a nil pointer, and the call panics. *)
Definition statement (db : EdDb) (title : string) : M NamedStmt :=
  match statements db !! title with
  | Some s => ret s
  | None => panic "runtime error: invalid memory address or nil pointer dereference"
  end.

(** [UpsertPerson] *)
Definition UpsertPerson (db : EdDb) (id : Z) (name : string) : M error :=
  let args : gmap string Value :=
    <["name" := VText name]> (<["id" := VInt id]> ∅) in
  s <- statement db "updatePerson" ;;
  r <- NamedStmt_Exec s args ;;
  match r with
  | Failed err => log_Fatal ("updatePerson: " +:+ err)
  | Done _ =>
      s <- statement db "insertPerson" ;;
      r <- NamedStmt_Exec s args ;;
      match r with
      | Failed err => log_Fatal ("insertPerson: " +:+ err)
      | Done _ => ret None
      end
  end.

(** [RecordSessionActivity] *)
Definition RecordSessionActivity (db : EdDb) (personID : Z) : M error :=
  s <- statement db "recordSessionActivity" ;;
  r <- NamedStmt_Exec s (<["personId" := VInt personID]> ∅) ;;
  match r with
  | Failed err => log_Fatal ("RecordSessionActivity: " +:+ err)
  | Done _ => ret None
  end.

(** The loop of [PrintSessionActivity]: every row is scanned and printed,
    whether the scan worked or not; [err] is the error of the last scan.
    When [rows.Next()] is false the loop is over, and [rows.Err()] is not
    asked why. *)
Fixpoint printRows (rows : list ReportRow) (err : error) : M error :=
  match rows with
  | [] => ret err
  | r :: rest =>
      let '((name, id, when, n), err') := Scan r in
      Println (ResultLine id name when n) ;;;
      printRows rest err'
  end.

Section Report.

Variable pick : list Joined -> Joined.

(** [PrintSessionActivity] *)
Definition PrintSessionActivity (db : EdDb) : M error :=
  s <- statement db "getSessionActivity" ;;
  r <- NamedStmt_Query pick s
         (<["name" := VText "f"]> (<["id" := VInt 1]> ∅)) ;;
  match r with
  | inr err => log_Fatal ("PrintSessionActivity : " +:+ err)
  | inl rows => printRows rows None
  end.

End Report.

(** *** Opening the database *)

Definition driverName : string := "sqlite3ConnectionCatchingDriver".

(** [sql.Register(name, driver)]: the registry is global to the process
    and nothing is ever removed from it; a name registered before makes
    the call panic. *)
Definition sql_Register (name : string) : M unit :=
  w <- get ;;
  if bool_decide (name ∈ drivers w)
  then panic ("sql: Register called twice for driver " +:+ name)
  else modify (set_drivers (name :: drivers w)).

(** [newConn.Exec("ATTACH DATABASE 'file::memory:?cache=shared&
    busy_timeout=60000' AS mem", nil)]: the connection with [mem]
    attached, or the connection as it was and the error. *)
Definition attach_mem (c : Conn) : M (Conn * ExecResult) :=
  e <- backend ;;
  match e with
  | Some msg => ret (c, Failed msg)
  | None => ret (mkConn true, Done 0)
  end.

(** The [ConnectHook] that [New] installs: what [Exec] returns is not
    looked at, and the hook returns nil. *)
Definition ConnectHook (newConn : Conn) : M (Conn * error) :=
  r <- attach_mem newConn ;;
  let newConn := fst r in
  Println (AttachLine newConn) ;;;
  ret (newConn, None).

(** [SQLiteDriver.Open]: opens the file, then runs the hook; a
    connection whose hook returns an error is closed and not handed out. *)
Definition SQLiteDriver_Open (dsn : string) : M (Conn + string) :=
  e <- backend ;;
  match e with
  | Some msg => ret (inr msg)
  | None =>
      r <- ConnectHook (mkConn false) ;;
      match snd r with
      | Some msg => ret (inr msg)
      | None => ret (inl (fst r))
      end
  end.

(** [sqlx.Connect(driverName, dsn)]: [sql.Open] finds the driver, [Ping]
    makes the first connection and leaves it idle in the pool. *)
Definition sqlx_Connect (name dsn : string) : M error :=
  w <- get ;;
  if bool_decide (name ∈ drivers w) then
    r <- SQLiteDriver_Open dsn ;;
    match r with
    | inr msg => ret (Some msg)
    | inl c => modify (set_pool [c]) ;;; ret None
    end
  else ret (Some ("sql: unknown driver " +:+ name)).

(** A connection for a command sent through [dbConn]: an idle one, or a
    new one when none is idle. *)
Definition conn (dsn : string) : M (Conn + string) :=
  w <- get ;;
  match pool w with
  | c :: _ => ret (inl c)
  | [] =>
      r <- SQLiteDriver_Open dsn ;;
      match r with
      | inr msg => ret (inr msg)
      | inl c => modify (set_pool [c]) ;;; ret (inl c)
      end
  end.

(** [dbConn.Exec(`PRAGMA foreign_keys = ON;`)] *)
Definition pragma_foreign_keys (dsn : string) : M ExecResult :=
  c <- conn dsn ;;
  match c with
  | inr msg => ret (Failed msg)
  | inl _ => run (fun w => w) (fun _ => 0)
  end.

(** [dbConn.Close()]: the connections of the pool are closed.  In [New]
    this comes after a schema that could not be set up, when no activity
    table has been made; in [Close], see [drop_mem]. *)
Definition DB_Close : M unit := modify (set_pool []).

(** [initDbSchema]: CREATE TABLE IF NOT EXISTS main.person keeps the rows
    that are on disk; CREATE TABLE mem.sessionActivity makes an empty table
    in the schema [mem] of the connection, which has to be attached.  (The
    memory database starts empty with the process, and [New] gets here at
    most once in a process.) *)
Definition initDbSchema (dsn : string) : M error :=
  c <- conn dsn ;;
  match c with
  | inr msg => ret (Some msg)
  | inl c =>
      e <- backend ;;
      match e with
      | Some msg => ret (Some msg)
      | None =>
          if memAttached c
          then modify (set_sessionActivity []) ;;; ret None
          else ret (Some "unknown database mem")
      end
  end.

(** The loop of [buildPreparedStatements] over the titles that are left;
    [PrepareNamed] is one command to the backend. *)
Fixpoint prepareEach (todo : list (string * Sql)) (db : EdDb) : M (EdDb * error) :=
  match todo with
  | [] => ret (db, None)
  | (title, sqlCommand) :: rest =>
      e <- backend ;;
      match e with
      | Some msg =>
          log_Fatal ("buildPreparedStatement:" +:+ title +:+ " " +:+ msg)
      | None =>
          prepareEach rest
            (mkEdDb (<[title := mkNamedStmt sqlCommand]> (statements db)))
      end
  end.

(** [buildPreparedStatements] *)
Definition buildPreparedStatements (db : EdDb) : M (EdDb * error) :=
  prepareEach preparedStatements db.

(** [New]: the handle, or the error. *)
Definition New (dbFilename : string) : M (option EdDb * error) :=
  sql_Register driverName ;;;
  let dbURI := "file:" +:+ dbFilename +:+ "?cache=shared&busy_timeout=60000" in
  err <- sqlx_Connect driverName dbURI ;;
  match err with
  | Some msg => ret (None, Some msg)
  | None =>
      (* SetMaxIdleConns(10): at most ten idle connections are kept *)
      _ <- pragma_foreign_keys dbURI ;;
      let edDb := mkEdDb ∅ in
      err <- initDbSchema dbURI ;;
      match err with
      | Some msg => DB_Close ;;; ret (None, Some msg)
      | None =>
          r <- buildPreparedStatements edDb ;;
          match snd r with
          | Some msg => DB_Close ;;; ret (None, Some msg)
          | None => ret (Some (fst r), None)
          end
      end
  end.

(** ** The calls a client of the layer can make on a handle *)

Inductive Call :=
| CallUpsertPerson (id : Z) (name : string)
| CallRecordSessionActivity (personID : Z)
| CallPrintSessionActivity.

Definition call (pick : list Joined -> Joined) (db : EdDb) (c : Call) : M error :=
  match c with
  | CallUpsertPerson id name => UpsertPerson db id name
  | CallRecordSessionActivity personID => RecordSessionActivity db personID
  | CallPrintSessionActivity => PrintSessionActivity pick db
  end.

(** A process before [New]: nothing registered, no connection, an empty
    memory table, and whatever is on disk. *)
Definition start (disk : list PersonRow) (now : Z) (answers : list Tick) : World :=
  mkWorld [] [] disk [] now answers [].

(** Two choices an engine can make: the first row of the group in the
    order of the join, and the last. *)
Definition pick_first (g : list Joined) : Joined :=
  default (mkJoined (mkActivity 0 0 0) None) (head g).
Definition pick_last (g : list Joined) : Joined :=
  default (mkJoined (mkActivity 0 0 0) None) (last g).

(** A handle is prepared when every title of [preparedStatements] is bound
    to the statement compiled from its text. *)
Definition prepared (db : EdDb) : Prop :=
  ∀ title q, (title, q) ∈ preparedStatements →
    statements db !! title = Some (mkNamedStmt q).

(** The backend carries out the next [n] commands. *)
Fixpoint healthy (n : nat) (w : World) : Prop :=
  match n with
  | O => True
  | S n => next_fault w = None ∧ healthy n (advance w)
  end.

(** The first failure among the next [n] commands, if there is one. *)
Fixpoint first_fault (n : nat) (w : World) : error :=
  match n with
  | O => None
  | S n =>
      match next_fault w with
      | Some msg => Some msg
      | None => first_fault n (advance w)
      end
  end.

(** The commands a call sends to the backend when none of them fails. *)
Definition commands (c : Call) : nat :=
  match c with
  | CallUpsertPerson _ _ => 2
  | CallRecordSessionActivity _ => 1
  | CallPrintSessionActivity => 1
  end.

(** Calls made one after the other by a process that is still running. *)
Fixpoint run_calls (pick : list Joined → Joined) (db : EdDb) (cs : list Call)
  : M (list error) :=
  match cs with
  | [] => ret []
  | c :: rest =>
      e <- call pick db c ;;
      es <- run_calls pick db rest ;;
      ret (e :: es)
  end.

(** The line the loop of [PrintSessionActivity] prints for a row. *)
Definition printed (r : ReportRow) : Line :=
  let '((name, id, when, n), _) := Scan r in ResultLine id name when n.

(** The handle in a result of [New]. *)
Definition handle_of (r : Result (option EdDb * error)) : EdDb :=
  match r with
  | Ret (Some db, _) _ => db
  | _ => mkEdDb ∅
  end.

(** The table after an upsert the backend carries out. *)
Definition upserted (id : Z) (name : string) (t : list PersonRow) : list PersonRow :=
  insert_or_ignore_person id name (update_person id name t).

(** The handle with the four statements of [preparedStatements]. *)
Definition all_prepared : EdDb :=
  mkEdDb (<["getSessionActivity" := mkNamedStmt SELECT_sessionActivity]>
         (<["recordSessionActivity" := mkNamedStmt INSERT_sessionActivity]>
         (<["updatePerson" := mkNamedStmt UPDATE_person]>
         (<["insertPerson" := mkNamedStmt INSERT_OR_IGNORE_person]> ∅)))).

(** A process that opens an empty disk file, with a backend that carries
    every command out and takes a second for each. *)
Definition example_open : Result (option EdDb * error) :=
  New "diskDb.db" (start [] 0 (replicate 30 (mkTick 1 None))).
Definition example_db : EdDb := handle_of example_open.
Definition example_world : World := world_of example_open.

(** The same process with one person on disk, updated five times so far. *)
Definition example_stored : World :=
  set_person [mkPerson 2 "Sue" 5] example_world.

(** The same process when the backend is about to fail a command. *)
Definition example_failing : World :=
  set_script [mkTick 1 (Some "database is locked")] example_stored.

(** A computation that leaves the driver registry as it found it, however
    it ends. *)
Definition keeps_drivers {A} (m : M A) : Prop :=
  ∀ w, drivers (world_of (m w)) = drivers w.

(** The activities recorded for an id. *)
Definition activities_of (id : Z) (acts : list SessionActivityRow)
  : list SessionActivityRow :=
  filter (λ a, sa_personId a = id) acts.

(** The process after the example of the specification: person 1 is
    upserted as Andy and as Andy2, then three activities are recorded for
    it, a second apart. *)
Definition example_recorded : World :=
  world_of ((UpsertPerson example_db 1 "Andy" ;;;
             UpsertPerson example_db 1 "Andy2" ;;;
             RecordSessionActivity example_db 1 ;;;
             RecordSessionActivity example_db 1 ;;;
             RecordSessionActivity example_db 1) example_world).

(** The process with one activity for each of two ids that no person has. *)
Definition example_orphans : World :=
  set_sessionActivity [mkActivity 1 7 3; mkActivity 2 8 4] example_world.

(** ** Closing the database *)

(** The loop of [Close] over the titles: [db.statements[title].Close()]
    finalizes the statement at the backend, and what it returns is dropped.
    (A handle is not used after [Close]; that its statements are closed is
    not recorded.) *)
Fixpoint closeEach (todo : list (string * Sql)) (db : EdDb) : M unit :=
  match todo with
  | [] => ret tt
  | (title, _) :: rest =>
      _ <- statement db title ;;
      _ <- backend ;;
      closeEach rest db
  end.

(** The engine deletes a shared memory database when the last connection
    to it is closed: [mem.sessionActivity] and its rows do not outlive the
    pool.  (A table that is not there has no rows.) *)
Definition drop_mem : M unit := modify (set_sessionActivity []).

(** [Close]; [db.dbConn.Close()] closes the last connections of the
    process, and the memory database goes with them. *)
Definition Close (db : EdDb) : M unit :=
  closeEach preparedStatements db ;;;
  DB_Close ;;;
  drop_mem.

(** ** The driver program, ed.go *)

(** [names] *)
Definition names : list string := ["Andy"; "Jim"; "Sue"; "SueSpoon"].

(** What a worker sends on the channel when it is done:
    [fmt.Sprintf("sessionUpdater %d finished", instanceNum)] and
    [fmt.Sprintf("dbPutter %d finished", instanceNum)]. *)
Inductive Message :=
| SessionUpdaterFinished (instanceNum : Z)
| DbPutterFinished (instanceNum : Z).

(** A method called on [edDb *db.EdDb]: on a nil pointer the first thing
    the three methods do with it, [db.statements], panics. *)
Definition method {A} (f : EdDb → M A) (edDb : option EdDb) : M A :=
  match edDb with
  | Some db => f db
  | None => panic "runtime error: invalid memory address or nil pointer dereference"
  end.

(** The loop of [sessionUpdater]; what [RecordSessionActivity] returns is
    dropped. *)
Fixpoint sessionUpdates (n : nat) (edDb : option EdDb) : M unit :=
  match n with
  | O => ret tt
  | S n =>
      _ <- method (λ db, RecordSessionActivity db 0) edDb ;;
      sessionUpdates n edDb
  end.

(** [sessionUpdater], run on its own; the message is what it sends on [c].
    [for i := 0; i < numIterations; i++] runs no iteration for a
    [numIterations] that is not positive. *)
Definition sessionUpdater (instanceNum numIterations : Z) (edDb : option EdDb)
  : M Message :=
  sessionUpdates (Z.to_nat numIterations) edDb ;;;
  ret (SessionUpdaterFinished instanceNum).

(** [rand.Intn(4)]: for a power of two the generator masks its next 31-bit
    output [raw]. *)
Definition Intn4 (raw : Z) : Z := Z.land raw 3.

(** The loop of [personPutter] from iteration [i] on; [rnd i] is the
    output of the generator that iteration [i] gets.  What [UpsertPerson]
    returns is dropped. *)
Fixpoint personPuts (rnd : nat → Z) (i n : nat) (edDb : option EdDb) : M unit :=
  match n with
  | O => ret tt
  | S n =>
      let which := Intn4 (rnd i) in
      match names !! Z.to_nat which with
      | None => panic "runtime error: index out of range"
      | Some name =>
          _ <- method (λ db, UpsertPerson db which name) edDb ;;
          personPuts rnd (S i) n edDb
      end
  end.

(** [personPutter], run on its own; the message is what it sends on [c]. *)
Definition personPutter (rnd : nat → Z) (instanceNum numIterations : Z)
  (edDb : option EdDb) : M Message :=
  personPuts rnd 0 (Z.to_nat numIterations) edDb ;;;
  ret (DbPutterFinished instanceNum).

(** ** Notions for the facts below *)

(** A computation that leaves a part of the world as it found it, however
    it ends. *)
Definition frames {A B} (part : World → B) (m : M A) : Prop :=
  ∀ w, part (world_of (m w)) = part w.

(** The number of writes the person table records: one for the insert of
    each row and one for each update of it. *)
Definition total_writes (t : list PersonRow) : Z :=
  foldr Z.add 0 ((λ r, numUpdates r + 1) <$> t).

(** The person table after the calls of a list, all carried out. *)
Definition person_after (cs : list Call) (t : list PersonRow) : list PersonRow :=
  foldl (λ t c, match c with
                | CallUpsertPerson id name => upserted id name t
                | _ => t
                end) t cs.

(** The commands a list of calls sends to the backend. *)
Definition commands_of (cs : list Call) : nat :=
  foldr (λ c n, (commands c + n)%nat) 0%nat cs.

(** The names the calls of a list give to an id, in the order of the calls. *)
Definition names_for (id : Z) (cs : list Call) : list string :=
  cs ≫= λ c, match c with
             | CallUpsertPerson id' name => if decide (id' = id) then [name] else []
             | _ => []
             end.

(** The activity table is in the order of time and nothing in it is later
    than the clock. *)
Definition in_time_order (w : World) : Prop :=
  StronglySorted Z.le (sa_dateTime <$> sessionActivity w) ∧
  ∀ a, a ∈ sessionActivity w → sa_dateTime a ≤ clock w.

(** Every row with one of the four ids of [names] carries the name [names]
    has for the id. *)
Definition named_by_names (t : list PersonRow) : Prop :=
  ∀ r, r ∈ t → 0 ≤ p_id r < 4 → names !! Z.to_nat (p_id r) = Some (p_name r).

(** The process of the example once more, with a backend that takes a
    second for each command, as long as the script lasts. *)
Definition example_ticking : World :=
  set_script (replicate 12 (mkTick 1 None)) example_stored.

(** The title a call looks up first in [db.statements]. *)
Definition first_title (c : Call) : string :=
  match c with
  | CallUpsertPerson _ _ => "updatePerson"
  | CallRecordSessionActivity _ => "recordSessionActivity"
  | CallPrintSessionActivity => "getSessionActivity"
  end.

(** The world after the backend has taken [n] commands. *)
Fixpoint advanced (n : nat) (w : World) : World :=
  match n with
  | O => w
  | S n => advanced n (advance w)
  end.

(** The ids the calls of a list upsert, in the order of the calls. *)
Definition upserted_ids (cs : list Call) : list Z :=
  cs ≫= λ c, match c with
             | CallUpsertPerson id _ => [id]
             | _ => []
             end.

(** * Facts *)

(** ** The backend and the handle *)

Lemma advance_person w : person (advance w) = person w.
Proof. unfold advance. by destruct (script w). Qed.

Lemma advance_sessionActivity w : sessionActivity (advance w) = sessionActivity w.
Proof. unfold advance. by destruct (script w). Qed.

Lemma advance_pool w : pool (advance w) = pool w.
Proof. unfold advance. by destruct (script w). Qed.

Lemma advance_drivers w : drivers (advance w) = drivers w.
Proof. unfold advance. by destruct (script w). Qed.

Lemma advance_stdout w : stdout (advance w) = stdout w.
Proof. unfold advance. by destruct (script w). Qed.

Lemma advance_clock w : clock w ≤ clock (advance w).
Proof. unfold advance. destruct (script w); simpl; lia. Qed.

Lemma prepared_statement db title q w :
  prepared db → (title, q) ∈ preparedStatements →
  statement db title w = Ret (mkNamedStmt q) w.
Proof. intros Hp Hin. unfold statement. by rewrite (Hp _ _ Hin). Qed.

Lemma titles_prepared :
  ("insertPerson", INSERT_OR_IGNORE_person) ∈ preparedStatements ∧
  ("updatePerson", UPDATE_person) ∈ preparedStatements ∧
  ("recordSessionActivity", INSERT_sessionActivity) ∈ preparedStatements ∧
  ("getSessionActivity", SELECT_sessionActivity) ∈ preparedStatements.
Proof. unfold preparedStatements. set_solver. Qed.

Lemma run_eq change affected w :
  run change affected w =
    match next_fault w with
    | Some msg => Ret (Failed msg) (advance w)
    | None => Ret (Done (affected (advance w))) (change (advance w))
    end.
Proof. unfold run, bind, backend. by destruct (next_fault w). Qed.

Lemma Exec_update id name w :
  NamedStmt_Exec (mkNamedStmt UPDATE_person)
    (<["name" := VText name]> (<["id" := VInt id]> ∅)) w =
  run (λ w, set_person (update_person id name (person w)) w)
      (λ w, Z.of_nat (length (rows_with_id id (person w)))) w.
Proof. reflexivity. Qed.

Lemma Exec_insert id name w :
  NamedStmt_Exec (mkNamedStmt INSERT_OR_IGNORE_person)
    (<["name" := VText name]> (<["id" := VInt id]> ∅)) w =
  run (λ w, set_person (insert_or_ignore_person id name (person w)) w)
      (λ w, inserted_rows id (person w)) w.
Proof. reflexivity. Qed.

Lemma Exec_record pid w :
  NamedStmt_Exec (mkNamedStmt INSERT_sessionActivity)
    (<["personId" := VInt pid]> ∅) w =
  run (λ w, set_sessionActivity
              (insert_sessionActivity pid (clock w) (sessionActivity w)) w)
      (λ _, 1) w.
Proof. reflexivity. Qed.

(** What [UpsertPerson] does, by the answers of the backend. *)
Lemma UpsertPerson_eq db id name w :
  prepared db →
  UpsertPerson db id name w =
    match next_fault w with
    | Some msg => Fatal ("updatePerson: " +:+ msg) (advance w)
    | None =>
        let w1 := set_person (update_person id name (person (advance w))) (advance w) in
        match next_fault w1 with
        | Some msg => Fatal ("insertPerson: " +:+ msg) (advance w1)
        | None =>
            Ret None (set_person (insert_or_ignore_person id name
                                    (person (advance w1))) (advance w1))
        end
    end.
Proof.
  intros Hp. destruct titles_prepared as (Hi & Hu & _).
  unfold UpsertPerson, bind.
  rewrite (prepared_statement _ _ _ _ Hp Hu), Exec_update, run_eq.
  destruct (next_fault w); [done|].
  rewrite (prepared_statement _ _ _ _ Hp Hi), Exec_insert, run_eq.
  simpl. by destruct (next_fault _).
Qed.

(** What [RecordSessionActivity] does, by the answer of the backend. *)
Lemma RecordSessionActivity_eq db personID w :
  prepared db →
  RecordSessionActivity db personID w =
    match next_fault w with
    | Some msg => Fatal ("RecordSessionActivity: " +:+ msg) (advance w)
    | None =>
        Ret None (set_sessionActivity
                    (insert_sessionActivity personID (clock (advance w))
                       (sessionActivity (advance w))) (advance w))
    end.
Proof.
  intros Hp. destruct titles_prepared as (_ & _ & Hr & _).
  unfold RecordSessionActivity, bind.
  rewrite (prepared_statement _ _ _ _ Hp Hr), Exec_record, run_eq.
  by destruct (next_fault w).
Qed.

Lemma printRows_eq rows err w :
  printRows rows err w =
    Ret (default err (last (snd ∘ Scan <$> rows)))
        (set_stdout (stdout w ++ (printed <$> rows)) w).
Proof.
  revert err w. induction rows as [|r rows IH]; intros err w; simpl.
  - unfold ret, set_stdout. rewrite app_nil_r. by destruct w.
  - unfold printed at 1.
    destruct (Scan r) as [[[[name id] when] n] err'] eqn:Hs.
    unfold bind, Println, modify. rewrite IH. simpl.
    f_equal.
    + destruct rows as [|r' rows]; [done|]. rewrite !fmap_cons, last_cons_cons.
      by destruct (proj2 (last_is_Some ((snd ∘ Scan) r' :: (snd ∘ Scan <$> rows)))
                     ltac:(done)) as [e' ->].
    + unfold set_stdout. simpl. by rewrite <- app_assoc.
Qed.

(** What [PrintSessionActivity] does, by the answer of the backend. *)
Lemma PrintSessionActivity_eq pick db w :
  prepared db →
  PrintSessionActivity pick db w =
    match next_fault w with
    | Some _ => Ret None (advance w)
    | None =>
        let rows := select_sessionActivity pick (sessionActivity w) (person w) in
        Ret (default None (last (snd ∘ Scan <$> rows)))
            (set_stdout (stdout w ++ (printed <$> rows)) (advance w))
    end.
Proof.
  intros Hp. destruct titles_prepared as (_ & _ & _ & Hg).
  unfold PrintSessionActivity, bind.
  rewrite (prepared_statement _ _ _ _ Hp Hg).
  unfold NamedStmt_Query, bind, backend, get, ret. simpl.
  destruct (next_fault w); [done|].
  rewrite printRows_eq.
  by rewrite advance_sessionActivity, advance_person, advance_stdout.
Qed.

Lemma advance_set_person t w : advance (set_person t w) = set_person t (advance w).
Proof. destruct w as [d p t' a c s o]. unfold advance, set_person. simpl. by destruct s. Qed.

Lemma advance_set_sessionActivity t w :
  advance (set_sessionActivity t w) = set_sessionActivity t (advance w).
Proof.
  destruct w as [d p t' a c s o]. unfold advance, set_sessionActivity. simpl.
  by destruct s.
Qed.

Lemma advance_set_stdout o w : advance (set_stdout o w) = set_stdout o (advance w).
Proof. destruct w as [d p t' a c s o']. unfold advance, set_stdout. simpl. by destruct s. Qed.

Lemma healthy_set_person n t w : healthy n (set_person t w) ↔ healthy n w.
Proof.
  revert w. induction n as [|n IH]; intros w; simpl; [done|].
  rewrite advance_set_person, IH. done.
Qed.

Lemma healthy_set_sessionActivity n t w :
  healthy n (set_sessionActivity t w) ↔ healthy n w.
Proof.
  revert w. induction n as [|n IH]; intros w; simpl; [done|].
  rewrite advance_set_sessionActivity, IH. done.
Qed.

Lemma healthy_set_stdout n o w : healthy n (set_stdout o w) ↔ healthy n w.
Proof.
  revert w. induction n as [|n IH]; intros w; simpl; [done|].
  rewrite advance_set_stdout, IH. done.
Qed.

Lemma healthy_first_fault n w : healthy n w → first_fault n w = None.
Proof.
  revert w. induction n as [|n IH]; intros w; simpl; [done|].
  intros [-> H]. by apply IH.
Qed.

(** An upsert the backend carries out: the update, then the insert. *)
Lemma UpsertPerson_healthy db id name w :
  prepared db → healthy 2 w →
  UpsertPerson db id name w =
    Ret None (set_person (insert_or_ignore_person id name
                            (update_person id name (person w)))
                (advance (advance w))).
Proof.
  intros Hp (H1 & H2 & _). rewrite UpsertPerson_eq by done.
  rewrite H1. simpl. unfold next_fault in *. simpl.
  fold (next_fault (advance w)). unfold next_fault. rewrite H2.
  rewrite advance_set_person. simpl. rewrite advance_person.
  unfold set_person. simpl. done.
Qed.

(** ** The two statements on [person] *)

Lemma updated_id id name r : p_id (updated id name r) = p_id r.
Proof. unfold updated. by case_decide. Qed.

Lemma updated_numUpdates id name r :
  numUpdates (updated id name r) =
  numUpdates r + (if decide (p_id r = id) then 1 else 0).
Proof. unfold updated. case_decide; simpl; lia. Qed.

Lemma update_person_ids id name t :
  p_id <$> update_person id name t = p_id <$> t.
Proof.
  unfold update_person. rewrite <- list_fmap_compose.
  apply list_fmap_ext. intros _ r _. simpl. apply updated_id.
Qed.

Lemma update_person_absent id name t :
  id ∉ p_id <$> t → update_person id name t = t.
Proof.
  intros Hn. unfold update_person.
  rewrite <- (list_fmap_id t) at 2. apply list_fmap_ext.
  intros i r Hr. unfold updated. case_decide as Heq; [|done].
  destruct Hn. rewrite <- Heq. apply list_elem_of_fmap_2.
  by eapply list_elem_of_lookup_2.
Qed.

Lemma rows_with_id_absent id t : id ∉ p_id <$> t ↔ rows_with_id id t = [].
Proof.
  unfold rows_with_id. split.
  - intros Hn. induction t as [|r t IH]; [done|].
    rewrite fmap_cons, not_elem_of_cons in Hn. destruct Hn as [Hne Hn].
    rewrite filter_cons_False by (simpl; congruence). by apply IH.
  - intros Hf [r [-> Hr]]%list_elem_of_fmap_1.
    exact (filter_nil_not_elem_of _ _ r Hf eq_refl Hr).
Qed.

Lemma rows_with_id_update id name t :
  rows_with_id id (update_person id name t) =
  (λ r, mkPerson id name (numUpdates r + 1)) <$> rows_with_id id t.
Proof.
  unfold rows_with_id, update_person.
  induction t as [|r t IH]; [done|].
  rewrite fmap_cons. destruct (decide (p_id r = id)) as [Heq|Hne].
  - rewrite !filter_cons_True by (by rewrite ?updated_id).
    rewrite fmap_cons, IH. unfold updated. by rewrite decide_True, Heq.
  - by rewrite !filter_cons_False by (by rewrite ?updated_id).
Qed.

Lemma rows_with_id_update_ne id' id name t :
  id' ≠ id →
  rows_with_id id' (update_person id name t) = rows_with_id id' t.
Proof.
  intros Hne. unfold rows_with_id, update_person.
  induction t as [|r t IH]; [done|].
  rewrite fmap_cons. destruct (decide (p_id r = id')) as [Heq|Hne'].
  - rewrite !filter_cons_True by (by rewrite ?updated_id).
    rewrite IH. unfold updated. by rewrite decide_False by congruence.
  - by rewrite !filter_cons_False by (by rewrite ?updated_id).
Qed.

Lemma insert_or_ignore_absent id name t :
  id ∉ p_id <$> t → insert_or_ignore_person id name t = t ++ [mkPerson id name 0].
Proof. intros Hn. unfold insert_or_ignore_person. by case_decide. Qed.

Lemma insert_or_ignore_present id name t :
  id ∈ p_id <$> t → insert_or_ignore_person id name t = t.
Proof. intros Hn. unfold insert_or_ignore_person. by case_decide. Qed.

Lemma insert_or_ignore_NoDup id name t :
  NoDup (p_id <$> t) → NoDup (p_id <$> insert_or_ignore_person id name t).
Proof.
  intros Hnd. unfold insert_or_ignore_person. case_decide as Hin; [done|].
  rewrite fmap_app. apply NoDup_app. split; [done|]. split.
  - intros x Hx. simpl. rewrite list_elem_of_singleton. congruence.
  - simpl. apply NoDup_singleton.
Qed.

(** Under the primary key an id has at most one row. *)
Lemma rows_with_id_unique id t :
  NoDup (p_id <$> t) → rows_with_id id t = [] ∨ ∃ r, rows_with_id id t = [r].
Proof.
  unfold rows_with_id. induction t as [|r t IH]; [by left|].
  rewrite fmap_cons, NoDup_cons. intros [Hr Hnd].
  destruct (decide (p_id r = id)) as [Heq|Hne].
  - right. exists r. rewrite filter_cons_True by done. f_equal.
    apply rows_with_id_absent. by rewrite <- Heq.
  - rewrite filter_cons_False by done. by apply IH.
Qed.

Lemma rows_with_id_elem r id t : r ∈ rows_with_id id t ↔ p_id r = id ∧ r ∈ t.
Proof. unfold rows_with_id. by rewrite list_elem_of_filter. Qed.


Lemma rows_with_id_upserted id name t :
  rows_with_id id (upserted id name t) =
    match rows_with_id id t with
    | [] => [mkPerson id name 0]
    | rs => (λ r, mkPerson id name (numUpdates r + 1)) <$> rs
    end.
Proof.
  unfold upserted. destruct (decide (id ∈ p_id <$> t)) as [Hin|Hout].
  - rewrite insert_or_ignore_present by (by rewrite update_person_ids).
    rewrite rows_with_id_update.
    destruct (rows_with_id id t) eqn:Hr; [|done].
    by apply rows_with_id_absent in Hr.
  - rewrite update_person_absent by done.
    rewrite insert_or_ignore_absent by done.
    rewrite (proj1 (rows_with_id_absent id t) Hout).
    unfold rows_with_id. rewrite filter_app.
    fold (rows_with_id id t). rewrite (proj1 (rows_with_id_absent id t) Hout).
    by rewrite filter_cons_True.
Qed.

Lemma rows_with_id_upserted_ne id' id name t :
  id' ≠ id → rows_with_id id' (upserted id name t) = rows_with_id id' t.
Proof.
  intros Hne. unfold upserted, insert_or_ignore_person.
  case_decide; [by apply rows_with_id_update_ne|].
  unfold rows_with_id. rewrite filter_app.
  fold (rows_with_id id' (update_person id name t)).
  rewrite rows_with_id_update_ne by done.
  rewrite filter_cons_False by (simpl; congruence).
  by rewrite app_nil_r.
Qed.

Lemma upserted_NoDup id name t :
  NoDup (p_id <$> t) → NoDup (p_id <$> upserted id name t).
Proof.
  intros Hnd. apply insert_or_ignore_NoDup. by rewrite update_person_ids.
Qed.

Lemma upserted_absent id name t :
  id ∉ p_id <$> t → upserted id name t = t ++ [mkPerson id name 0].
Proof.
  intros Hn. unfold upserted. rewrite update_person_absent by done.
  by apply insert_or_ignore_absent.
Qed.

(** Two upserts in a row, both carried out. *)
Lemma UpsertPerson_twice db id name1 name2 w :
  prepared db → healthy 4 w →
  ∃ w1 w2,
    UpsertPerson db id name1 w = Ret None w1 ∧
    UpsertPerson db id name2 w1 = Ret None w2 ∧
    person w2 = upserted id name2 (upserted id name1 (person w)).
Proof.
  intros Hp (H1 & H2 & H3 & H4 & _).
  eexists _, _. split; [by apply UpsertPerson_healthy|].
  split; [apply UpsertPerson_healthy; [done|]|done].
  apply healthy_set_person. done.
Qed.

(** ** Handles that [New] returns *)

Lemma all_prepared_prepared : prepared all_prepared.
Proof.
  intros title q Hin. unfold preparedStatements in Hin.
  repeat (apply elem_of_cons in Hin as [[= -> ->]|Hin]; [by vm_compute|]).
  by apply elem_of_nil in Hin.
Qed.

Lemma buildPreparedStatements_handle w db err w' :
  buildPreparedStatements (mkEdDb ∅) w = Ret (db, err) w' →
  db = all_prepared ∧ err = None.
Proof.
  unfold buildPreparedStatements, preparedStatements, prepareEach, bind, backend.
  repeat (match goal with
          | |- context [next_fault ?x] => destruct (next_fault x)
          end; [discriminate|]).
  simpl. intros [= <- <-]. done.
Qed.

(** A handle that [New] returns is prepared. *)
Lemma New_prepared dbFilename w db err w' :
  New dbFilename w = Ret (Some db, err) w' → prepared db.
Proof.
  unfold New, bind.
  destruct (sql_Register _ w) as [[] w1| |]; [|discriminate..].
  destruct (sqlx_Connect _ _ w1) as [[msg|] w2| |]; [discriminate| |discriminate..].
  destruct (pragma_foreign_keys _ w2) as [r w3| |]; [|discriminate..].
  destruct (initDbSchema _ w3) as [[msg|] w4| |]; [discriminate| |discriminate..].
  destruct (buildPreparedStatements _ w4) as [[db' [msg|]] w5| |] eqn:Hb;
    [discriminate| |discriminate..].
  simpl. intros [= <- _ _].
  apply buildPreparedStatements_handle in Hb as [-> _].
  apply all_prepared_prepared.
Qed.


Lemma example_db_prepared : prepared example_db.
Proof.
  apply (New_prepared "diskDb.db" (start [] 0 (replicate 30 (mkTick 1 None)))
           example_db None example_world).
  by vm_compute.
Qed.

(** * Upserts *)

(** C2. An id that is not stored, upserted twice in a row with two names,
    has exactly one stored row afterwards: it carries the second name and
    numUpdates 1. *)
Theorem C2_fresh_id_upserted_twice db w id name1 name2 :
  prepared db → healthy 4 w → id ∉ p_id <$> person w →
  ∃ w1 w2,
    UpsertPerson db id name1 w = Ret None w1 ∧
    UpsertPerson db id name2 w1 = Ret None w2 ∧
    rows_with_id id (person w2) = [mkPerson id name2 1].
Proof.
  intros Hp Hh Hout.
  destruct (UpsertPerson_twice db id name1 name2 w Hp Hh) as (w1 & w2 & H1 & H2 & Hw).
  exists w1, w2. split; [done|]. split; [done|].
  rewrite Hw, !rows_with_id_upserted.
  by rewrite (proj1 (rows_with_id_absent id (person w)) Hout).
Qed.

(** The example of the specification: upsert(1, Andy), upsert(1, Andy2)
    leaves the row (1, Andy2, 1). *)
Lemma C2_Andy_then_Andy2 :
  ∃ w1 w2,
    UpsertPerson example_db 1 "Andy" example_world = Ret None w1 ∧
    UpsertPerson example_db 1 "Andy2" w1 = Ret None w2 ∧
    rows_with_id 1 (person w2) = [mkPerson 1 "Andy2" 1].
Proof.
  apply C2_fresh_id_upserted_twice.
  - apply example_db_prepared.
  - by vm_compute.
  - vm_compute. apply not_elem_of_nil.
Defined.

(** C3, as the specification states it, fails: id 1, not stored before, is
    upserted twice with different names and its numUpdates is 1, not 2. *)
Lemma C3_numUpdates_is_not_2 :
  ∃ w1 w2 r,
    UpsertPerson example_db 1 "Andy" example_world = Ret None w1 ∧
    UpsertPerson example_db 1 "Andy2" w1 = Ret None w2 ∧
    person w2 = [r] ∧ p_id r = 1 ∧ p_name r = "Andy2" ∧ numUpdates r ≠ 2.
Proof.
  eexists _, _, _.
  split; [by vm_compute|]. split; [by vm_compute|]. split; [by vm_compute|].
  by vm_compute.
Qed.

(** C3, amended. An id upserted twice in a row with two names has one
    stored row afterwards, with the name of the last write; its numUpdates
    is 1 when the id was not stored before the two writes, and 2 more than
    it was when the id was stored. *)
Theorem C3_upserted_twice db w id name1 name2 :
  prepared db → healthy 4 w → NoDup (p_id <$> person w) →
  ∃ w1 w2,
    UpsertPerson db id name1 w = Ret None w1 ∧
    UpsertPerson db id name2 w1 = Ret None w2 ∧
    rows_with_id id (person w2) =
      [mkPerson id name2
         match rows_with_id id (person w) with
         | [] => 1
         | r :: _ => numUpdates r + 2
         end].
Proof.
  intros Hp Hh Hnd.
  destruct (UpsertPerson_twice db id name1 name2 w Hp Hh) as (w1 & w2 & H1 & H2 & Hw).
  exists w1, w2. split; [done|]. split; [done|].
  rewrite Hw, !rows_with_id_upserted.
  destruct (rows_with_id_unique id (person w) Hnd) as [->|[r ->]]; [done|].
  simpl. do 2 f_equal. lia.
Qed.

(** Person 2, stored with numUpdates 5, has 7 after two upserts. *)
Lemma C3_Sue_upserted_twice :
  ∃ w1 w2,
    UpsertPerson example_db 2 "Jim" example_stored = Ret None w1 ∧
    UpsertPerson example_db 2 "SueSpoon" w1 = Ret None w2 ∧
    rows_with_id 2 (person w2) = [mkPerson 2 "SueSpoon" 7].
Proof.
  apply (C3_upserted_twice example_db example_stored 2 "Jim" "SueSpoon").
  - apply example_db_prepared.
  - by vm_compute.
  - vm_compute. apply NoDup_singleton.
Defined.

(** C4. Upserting succeeds whenever the backend carries out its two
    statements, whatever number of rows they touch.  For an id that has no
    row, the update touches no row and is no error, and the insert makes
    the row with the given name and numUpdates 0; for an id that has a row
    it is the insert that touches no row. *)
Theorem C4_upsert_succeeds db w id name :
  prepared db → healthy 2 w →
  let args : gmap string Value :=
    <["name" := VText name]> (<["id" := VInt id]> ∅) in
  ∃ n1 n2 w1 w2,
    NamedStmt_Exec (mkNamedStmt UPDATE_person) args w = Ret (Done n1) w1 ∧
    NamedStmt_Exec (mkNamedStmt INSERT_OR_IGNORE_person) args w1 = Ret (Done n2) w2 ∧
    UpsertPerson db id name w = Ret None w2 ∧
    (id ∉ p_id <$> person w →
       n1 = 0 ∧ person w1 = person w ∧
       n2 = 1 ∧ person w2 = person w ++ [mkPerson id name 0]) ∧
    (id ∈ p_id <$> person w → n2 = 0).
Proof.
  intros Hp (H1 & H2 & _) args.
  eexists _, _, _, _. subst args.
  rewrite Exec_update, run_eq, H1.
  split; [done|].
  rewrite Exec_insert, run_eq. rewrite advance_set_person.
  assert (next_fault (set_person (update_person id name (person (advance w)))
                        (advance w)) = None) as -> by done.
  split; [done|].
  split.
  { rewrite UpsertPerson_healthy by (by repeat split). simpl.
    by rewrite !advance_person. }
  simpl. rewrite !advance_person. unfold inserted_rows.
  rewrite update_person_ids. split.
  - intros Hout. rewrite (proj1 (rows_with_id_absent _ _) Hout).
    rewrite update_person_absent by done.
    rewrite insert_or_ignore_absent by done.
    by rewrite decide_False.
  - intros Hin. by rewrite decide_True.
Qed.

(** Upserting id 1, which is not stored, next to the stored person 2. *)
Lemma C4_upsert_Andy :
  ∃ n1 n2 w1 w2,
    NamedStmt_Exec (mkNamedStmt UPDATE_person)
      (<["name" := VText "Andy"]> (<["id" := VInt 1]> ∅)) example_stored
      = Ret (Done n1) w1 ∧
    NamedStmt_Exec (mkNamedStmt INSERT_OR_IGNORE_person)
      (<["name" := VText "Andy"]> (<["id" := VInt 1]> ∅)) w1
      = Ret (Done n2) w2 ∧
    UpsertPerson example_db 1 "Andy" example_stored = Ret None w2 ∧
    n1 = 0 ∧ n2 = 1 ∧
    person w2 = [mkPerson 2 "Sue" 5; mkPerson 1 "Andy" 0].
Proof.
  destruct (C4_upsert_succeeds example_db example_stored 1 "Andy")
    as (n1 & n2 & w1 & w2 & H1 & H2 & H3 & Hout & _).
  - apply example_db_prepared.
  - by vm_compute.
  - exists n1, n2, w1, w2.
    destruct Hout as (-> & _ & -> & ->).
    + change (1 ∉ [2]). rewrite list_elem_of_singleton. lia.
    + done.
Defined.

(** * Recording activity *)

(** C8. Whatever the id, with or without a person of that id,
    [RecordSessionActivity] adds exactly one row to sessionActivity and
    returns nil, provided the backend carries the statement out.  The
    dateTime of the row is the time of the backend when it runs the
    statement, not before the time of the call.  The person table is
    neither read nor changed. *)
Theorem C8_record_inserts_one_row db w personID :
  prepared db → healthy 1 w →
  ∃ w',
    RecordSessionActivity db personID w = Ret None w' ∧
    sessionActivity w' =
      sessionActivity w ++
        [mkActivity (next_rowid (sessionActivity w)) personID (clock w')] ∧
    clock w ≤ clock w' ∧
    person w' = person w.
Proof.
  intros Hp [H1 _]. eexists. rewrite RecordSessionActivity_eq, H1 by done.
  split; [done|]. simpl.
  rewrite advance_sessionActivity, advance_person.
  split; [done|]. split; [apply advance_clock|done].
Qed.

(** An activity for id 42, which no person has, in the ninth second. *)
Lemma C8_record_for_unknown_person :
  ∃ w',
    RecordSessionActivity example_db 42 example_world = Ret None w' ∧
    sessionActivity w' = [mkActivity 1 42 9] ∧
    person w' = [].
Proof.
  destruct (C8_record_inserts_one_row example_db example_world 42)
    as (w' & H1 & H2 & _ & H3).
  - apply example_db_prepared.
  - by vm_compute.
  - exists w'. rewrite H2, H3. split; [done|].
    vm_compute in H1. injection H1 as <-. by vm_compute.
Defined.

(** * Failing statements *)

(** C1, as the specification states it, fails: when the backend fails the
    statement, [UpsertPerson] and [RecordSessionActivity] stop the process
    through [log.Fatal]; no error comes back to the caller. *)
Lemma C1_failure_stops_the_process :
  UpsertPerson example_db 1 "Andy" example_failing =
    Fatal "updatePerson: database is locked" (advance example_failing) ∧
  RecordSessionActivity example_db 1 example_failing =
    Fatal "RecordSessionActivity: database is locked" (advance example_failing) ∧
  ¬ ∃ err w', UpsertPerson example_db 1 "Andy" example_failing = Ret (Some err) w'.
Proof.
  split; [by vm_compute|]. split; [by vm_compute|].
  intros (err & w' & H). vm_compute in H. discriminate.
Qed.

(** C1, amended. When the backend fails a statement of [UpsertPerson] or
    of [RecordSessionActivity], the call does not return: [log.Fatal] logs
    the error of the backend behind the name of the statement and stops the
    process.  The statement that failed has changed nothing: the activity
    table, the pool, the registry and the output are as before the call,
    and so is the person table, except that the update of an upsert stays
    when it is the insert that failed. *)
Theorem C1_failed_statement_is_fatal pick db c w msg :
  prepared db → c ≠ CallPrintSessionActivity →
  first_fault (commands c) w = Some msg →
  ∃ tag w',
    call pick db c w = Fatal (tag +:+ msg) w' ∧
    sessionActivity w' = sessionActivity w ∧
    pool w' = pool w ∧ drivers w' = drivers w ∧ stdout w' = stdout w ∧
    (person w' = person w ∨
     ∃ id name, c = CallUpsertPerson id name ∧
                person w' = update_person id name (person w)).
Proof.
  intros Hp Hc Hf. destruct c as [id name|personID|]; simpl in *; [| |done].
  - rewrite UpsertPerson_eq by done.
    destruct (next_fault w) as [m|] eqn:H1.
    + injection Hf as ->. exists "updatePerson: ", (advance w).
      rewrite advance_sessionActivity, advance_pool, advance_drivers,
        advance_stdout, advance_person. by repeat split; try left.
    + destruct (next_fault (advance w)) as [m|] eqn:H2; [|done].
      injection Hf as ->. simpl.
      assert (next_fault (set_person (update_person id name (person (advance w)))
                            (advance w)) = Some msg) as -> by done.
      eexists "insertPerson: ", _. split; [done|].
      rewrite advance_set_person. simpl.
      rewrite !advance_sessionActivity, !advance_pool, !advance_drivers,
        !advance_stdout, !advance_person.
      repeat split. right. by exists id, name.
  - rewrite RecordSessionActivity_eq by done.
    destruct (next_fault w) as [m|] eqn:H1; [|done].
    injection Hf as ->. exists "RecordSessionActivity: ", (advance w).
    rewrite advance_sessionActivity, advance_pool, advance_drivers,
      advance_stdout, advance_person. by repeat split; try left.
Qed.

(** A locked database stops the process in [RecordSessionActivity]. *)
Lemma C1_locked_database_is_fatal :
  ∃ tag w',
    RecordSessionActivity example_db 1 example_failing =
      Fatal (tag +:+ "database is locked") w' ∧
    sessionActivity w' = sessionActivity example_failing ∧
    person w' = person example_failing.
Proof.
  destruct (C1_failed_statement_is_fatal pick_last example_db
              (CallRecordSessionActivity 1) example_failing "database is locked")
    as (tag & w' & H & Hs & _ & _ & _ & [Hp|(id & name & Hc & _)]).
  - apply example_db_prepared.
  - discriminate.
  - by vm_compute.
  - by exists tag, w'.
  - discriminate.
Defined.

(** * The person table under the calls of the layer *)

Lemma elem_of_update_person id name t r :
  r ∈ t → updated id name r ∈ update_person id name t.
Proof. intros Hr. unfold update_person. by apply (list_elem_of_fmap_2 (updated id name)). Qed.

Lemma elem_of_insert_or_ignore id name t r :
  r ∈ t → r ∈ insert_or_ignore_person id name t.
Proof.
  intros Hr. unfold insert_or_ignore_person. case_decide; [done|].
  apply elem_of_app. by left.
Qed.

Lemma elem_of_upserted id name t r :
  r ∈ t → updated id name r ∈ upserted id name t.
Proof.
  intros Hr. by apply elem_of_insert_or_ignore, elem_of_update_person.
Qed.

(** The person table an upsert leaves, however it ends. *)
Lemma UpsertPerson_person db id name w :
  prepared db →
  let r := UpsertPerson db id name w in
  (person (world_of r) = person w ∧ (∃ msg w', r = Fatal msg w')) ∨
  (person (world_of r) = update_person id name (person w) ∧ (∃ msg w', r = Fatal msg w')) ∨
  (person (world_of r) = upserted id name (person w) ∧ (∃ w', r = Ret None w')).
Proof.
  intros Hp r. subst r. rewrite UpsertPerson_eq by done.
  destruct (next_fault w).
  { left. simpl. rewrite advance_person. eauto. }
  simpl. destruct (next_fault _).
  { right. left. simpl. rewrite advance_set_person. simpl.
    rewrite advance_person. eauto. }
  right. right. simpl. rewrite advance_set_person. simpl.
  rewrite advance_person. eauto.
Qed.

Lemma RecordSessionActivity_person db personID w :
  prepared db →
  person (world_of (RecordSessionActivity db personID w)) = person w.
Proof.
  intros Hp. rewrite RecordSessionActivity_eq by done.
  destruct (next_fault w); simpl; by rewrite advance_person.
Qed.

Lemma PrintSessionActivity_person pick db w :
  prepared db →
  person (world_of (PrintSessionActivity pick db w)) = person w.
Proof.
  intros Hp. rewrite PrintSessionActivity_eq by done.
  destruct (next_fault w); simpl; by rewrite advance_person.
Qed.

(** C9. Under every call of the layer, however the call ends, the ids of
    the person table stay free of duplicates and no row's numUpdates gets
    smaller.  An upsert that returns adds exactly 1 to the numUpdates of the
    row with its id and leaves the other rows as they are; recording and
    reporting leave the table as it is. *)
Theorem C9_person_table_invariants pick db c w :
  prepared db → NoDup (p_id <$> person w) →
  let r := call pick db c w in
  NoDup (p_id <$> person (world_of r)) ∧
  (∀ p, p ∈ person w →
     ∃ p', p' ∈ person (world_of r) ∧ p_id p' = p_id p ∧
           numUpdates p ≤ numUpdates p') ∧
  (∀ id name err w', c = CallUpsertPerson id name → r = Ret err w' →
     ∀ p, p ∈ person w →
       ∃ p', p' ∈ person w' ∧ p_id p' = p_id p ∧
             numUpdates p' = numUpdates p + (if decide (p_id p = id) then 1 else 0) ∧
             (p_id p ≠ id → p' = p)) ∧
  ((∀ id name, c ≠ CallUpsertPerson id name) → person (world_of r) = person w).
Proof.
  intros Hp Hnd r. subst r. destruct c as [id name|personID|]; simpl.
  - destruct (UpsertPerson_person db id name w Hp)
      as [[Ht Hr]|[[Ht Hr]|[Ht Hr]]]; rewrite Ht.
    + split; [done|]. split; [intros p Hin; exists p; by repeat split|].
      split; [|intros Hc; by destruct (Hc id name)].
      intros id' name' err w' _ Hret. destruct Hr as (msg & w'' & Hr). congruence.
    + split; [by rewrite update_person_ids|]. split.
      { intros p Hin. exists (updated id name p).
        split; [by apply elem_of_update_person|].
        rewrite updated_id, updated_numUpdates. split; [done|]. case_decide; lia. }
      split; [|intros Hc; by destruct (Hc id name)].
      intros id' name' err w' _ Hret. destruct Hr as (msg & w'' & Hr). congruence.
    + split; [by apply upserted_NoDup|]. split.
      { intros p Hin. exists (updated id name p).
        split; [by apply elem_of_upserted|].
        rewrite updated_id, updated_numUpdates. split; [done|]. case_decide; lia. }
      split; [|intros Hc; by destruct (Hc id name)].
      intros id' name' err w' [= <- <-] Hret. destruct Hr as (w'' & Hr).
      rewrite Hret in Ht. simpl in Ht. rewrite Ht.
      intros p Hin. exists (updated id name p).
      split; [by apply elem_of_upserted|].
      rewrite updated_id, updated_numUpdates. split; [done|]. split; [done|].
      intros Hne. unfold updated. by rewrite decide_False.
  - rewrite RecordSessionActivity_person by done.
    split; [done|]. split; [intros p Hin; exists p; by repeat split|].
    split; [|done]. intros id name err w' [=].
  - rewrite PrintSessionActivity_person by done.
    split; [done|]. split; [intros p Hin; exists p; by repeat split|].
    split; [|done]. intros id name err w' [=].
Qed.

(** Person 2, stored with numUpdates 5, has 6 after one upsert. *)
Lemma C9_Sue_updated_once_more :
  ∃ w' p',
    UpsertPerson example_db 2 "Jim" example_stored = Ret None w' ∧
    NoDup (p_id <$> person w') ∧
    p' ∈ person w' ∧ p_id p' = 2 ∧ numUpdates p' = 6.
Proof.
  destruct (C9_person_table_invariants pick_last example_db
              (CallUpsertPerson 2 "Jim") example_stored)
    as (Hnd & _ & Hup & _).
  - apply example_db_prepared.
  - change (NoDup [2]). apply NoDup_singleton.
  - destruct (Hup 2 "Jim" None
                (world_of (UpsertPerson example_db 2 "Jim" example_stored))
                eq_refl) with (p := mkPerson 2 "Sue" 5)
      as (p' & Hin & Hid & Hn & _).
    + by vm_compute.
    + change (mkPerson 2 "Sue" 5 ∈ [mkPerson 2 "Sue" 5]). apply list_elem_of_singleton. done.
    + eexists _, p'. split; [by vm_compute|]. split; [exact Hnd|]. done.
Defined.

(** * The driver registry *)

Lemma keeps_ret {A} (a : A) : keeps_drivers (ret a).
Proof. by intros w. Qed.

Lemma keeps_panic {A} msg : keeps_drivers (@panic A msg).
Proof. by intros w. Qed.

Lemma keeps_log_Fatal {A} msg : keeps_drivers (@log_Fatal A msg).
Proof. by intros w. Qed.

Lemma keeps_get : keeps_drivers get.
Proof. by intros w. Qed.

Lemma keeps_backend : keeps_drivers backend.
Proof. intros w. apply advance_drivers. Qed.

Lemma keeps_modify f :
  (∀ w, drivers (f w) = drivers w) → keeps_drivers (modify f).
Proof. intros Hf w. apply Hf. Qed.

Lemma keeps_bind {A B} (m : M A) (k : A → M B) :
  keeps_drivers m → (∀ a, keeps_drivers (k a)) → keeps_drivers (bind m k).
Proof.
  intros Hm Hk w. unfold bind. specialize (Hm w).
  destruct (m w) as [a w'| |]; [|done..].
  simpl in Hm. rewrite <- Hm. apply Hk.
Qed.

Create HintDb keeps.
#[local] Hint Resolve keeps_ret keeps_panic keeps_log_Fatal keeps_get
  keeps_backend : keeps.

Ltac keeps :=
  repeat first
    [ solve [auto with keeps]
    | apply keeps_bind
    | match goal with
      | |- keeps_drivers (match ?x with _ => _ end) => destruct x
      | |- keeps_drivers (if ?x then _ else _) => destruct x
      | |- keeps_drivers _ => fail 1
      | |- ∀ _, _ => intro
      end ].

Lemma keeps_run change affected :
  (∀ w, drivers (change w) = drivers w) → keeps_drivers (run change affected).
Proof. intros Hc. unfold run. keeps. Qed.

Lemma keeps_NamedStmt_Exec s arg : keeps_drivers (NamedStmt_Exec s arg).
Proof. unfold NamedStmt_Exec. keeps; by apply keeps_run. Qed.

Lemma keeps_NamedStmt_Query pick s arg : keeps_drivers (NamedStmt_Query pick s arg).
Proof. unfold NamedStmt_Query. keeps; apply keeps_NamedStmt_Exec. Qed.

Lemma keeps_statement db title : keeps_drivers (statement db title).
Proof. unfold statement. keeps. Qed.

Lemma keeps_printRows rows err : keeps_drivers (printRows rows err).
Proof.
  revert err. induction rows as [|r rows IH]; intros err; simpl; [keeps|].
  destruct (Scan r) as [[[[name id] when] n] err']. unfold Println. keeps.
Qed.

Lemma keeps_call pick db c : keeps_drivers (call pick db c).
Proof.
  destruct c; simpl;
    unfold UpsertPerson, RecordSessionActivity, PrintSessionActivity;
    keeps;
    auto using keeps_statement, keeps_NamedStmt_Exec, keeps_NamedStmt_Query,
      keeps_printRows.
Qed.

Lemma keeps_run_calls pick db cs : keeps_drivers (run_calls pick db cs).
Proof.
  induction cs as [|c cs IH]; simpl; keeps. apply keeps_call.
Qed.

Lemma keeps_ConnectHook c : keeps_drivers (ConnectHook c).
Proof. unfold ConnectHook, attach_mem, Println. keeps. Qed.

Lemma keeps_SQLiteDriver_Open dsn : keeps_drivers (SQLiteDriver_Open dsn).
Proof. unfold SQLiteDriver_Open. keeps; apply keeps_ConnectHook. Qed.

Lemma keeps_sqlx_Connect name dsn : keeps_drivers (sqlx_Connect name dsn).
Proof. unfold sqlx_Connect. keeps; apply keeps_SQLiteDriver_Open. Qed.

Lemma keeps_conn dsn : keeps_drivers (conn dsn).
Proof. unfold conn. keeps; apply keeps_SQLiteDriver_Open. Qed.

Lemma keeps_pragma_foreign_keys dsn : keeps_drivers (pragma_foreign_keys dsn).
Proof. unfold pragma_foreign_keys. keeps; first [apply keeps_conn|by apply keeps_run]. Qed.

Lemma keeps_initDbSchema dsn : keeps_drivers (initDbSchema dsn).
Proof. unfold initDbSchema. keeps; apply keeps_conn. Qed.

Lemma keeps_prepareEach todo db : keeps_drivers (prepareEach todo db).
Proof.
  revert db. induction todo as [|[title q] todo IH]; intros db; simpl; keeps.
Qed.

(** Whatever [New] does after it has registered its driver keeps the
    registry. *)
Lemma New_drivers dbFilename w r w' :
  New dbFilename w = Ret r w' →
  (driverName ∉ drivers w) ∧ drivers w' = driverName :: drivers w.
Proof.
  unfold New. unfold bind at 1. unfold sql_Register at 1.
  unfold bind at 1, get. case_bool_decide as Hin; [done|].
  unfold modify at 1. intros Hret. split; [done|].
  match type of Hret with ?m ?w0 = _ =>
    assert (keeps_drivers m) as Hk
  end.
  { unfold DB_Close, buildPreparedStatements. keeps;
      auto using keeps_sqlx_Connect, keeps_pragma_foreign_keys,
        keeps_initDbSchema, keeps_prepareEach. }
  specialize (Hk (set_drivers (driverName :: drivers w) w)).
  by rewrite Hret in Hk.
Qed.

(** [New] in a process where its driver name is registered. *)
Lemma New_registered dbFilename w :
  driverName ∈ drivers w →
  New dbFilename w =
    Panic ("sql: Register called twice for driver " +:+ driverName) w.
Proof.
  intros Hin. unfold New. unfold bind at 1. unfold sql_Register.
  unfold bind at 1, get. by rewrite bool_decide_true.
Qed.

(** C10. Once [New] has returned, with a handle or with an error, every
    later call of [New] in the same process panics, whatever file it names
    and whatever calls of the layer were made in between: the driver name
    is registered by the first call, nothing removes it, and registering
    it again panics. *)
Theorem C10_second_New_panics pick dbFilename1 dbFilename2 w r w1 db cs es w2 :
  New dbFilename1 w = Ret r w1 →
  run_calls pick db cs w1 = Ret es w2 →
  New dbFilename2 w2 =
    Panic ("sql: Register called twice for driver " +:+ driverName) w2.
Proof.
  intros Hnew Hcalls. apply New_registered.
  pose proof (keeps_run_calls pick db cs w1) as Hk. rewrite Hcalls in Hk.
  simpl in Hk. rewrite Hk.
  apply New_drivers in Hnew as [_ ->]. apply elem_of_cons. by left.
Qed.

(** [New] again, for another file, after [New] and an upsert. *)
Lemma C10_New_after_upsert :
  ∃ w2,
    run_calls pick_last example_db [CallUpsertPerson 1 "Andy"] example_world
      = Ret [None] w2 ∧
    New "other.db" w2 =
      Panic "sql: Register called twice for driver sqlite3ConnectionCatchingDriver" w2.
Proof.
  eexists. split; [by vm_compute|].
  eapply (C10_second_New_panics pick_last "diskDb.db" "other.db"
            (start [] 0 (replicate 30 (mkTick 1 None)))
            (Some example_db, None) example_world example_db
            [CallUpsertPerson 1 "Andy"] [None]).
  - by vm_compute.
  - by vm_compute.
Defined.

(** * The connection hook *)

(** C7. When the backend fails the ATTACH of a new connection, the hook
    still returns nil and the driver hands the connection out, without the
    memory database: the error of the ATTACH is dropped. *)
Theorem C7_failed_attach_is_dropped dsn w msg :
  next_fault w = None → next_fault (advance w) = Some msg →
  ∃ w',
    ConnectHook (mkConn false) (advance w) = Ret (mkConn false, None) w' ∧
    SQLiteDriver_Open dsn w = Ret (inl (mkConn false)) w'.
Proof.
  intros H1 H2. eexists.
  unfold SQLiteDriver_Open, ConnectHook, attach_mem, bind, backend, Println, modify.
  rewrite H1, H2. simpl. done.
Qed.

(** A connection whose ATTACH ran out of memory is handed out all the same. *)
Lemma C7_connection_without_mem :
  ∃ w',
    ConnectHook (mkConn false)
      (advance (start [] 0 [mkTick 0 None; mkTick 0 (Some "out of memory")]))
      = Ret (mkConn false, None) w' ∧
    SQLiteDriver_Open "file:diskDb.db?cache=shared&busy_timeout=60000"
      (start [] 0 [mkTick 0 None; mkTick 0 (Some "out of memory")])
      = Ret (inl (mkConn false)) w'.
Proof.
  apply (C7_failed_attach_is_dropped _ _ "out of memory"); by vm_compute.
Defined.

(** On the first connection of a process the dropped error shows later and
    under another name: the schema cannot be created, and [New] returns
    that error. *)
Lemma New_after_failed_attach :
  ∃ w',
    New "diskDb.db" (start [] 0 [mkTick 0 None; mkTick 0 (Some "out of memory")])
      = Ret (None, Some "unknown database mem") w' ∧
    pool w' = [].
Proof. eexists. split; by vm_compute. Qed.

(** * The report *)

Global Instance earlier_total : Total earlier.
Proof. intros r1 r2. unfold earlier. lia. Qed.

Global Instance earlier_trans : Transitive earlier.
Proof. intros r1 r2 r3. unfold earlier. lia. Qed.

Lemma select_sessionActivity_sorted pick acts ps :
  StronglySorted earlier (select_sessionActivity pick acts ps).
Proof. apply StronglySorted_merge_sort; apply _. Qed.

Lemma select_sessionActivity_perm pick acts ps :
  select_sessionActivity pick acts ps ≡ₚ grouped_rows pick acts ps.
Proof. apply merge_sort_Permutation. Qed.

Lemma elem_of_join_activity ps a j :
  j ∈ join_activity ps a ↔
  j_activity j = a ∧
  ((j_person j = None ∧ sa_personId a ∉ p_id <$> ps) ∨
   (∃ p, j_person j = Some p ∧ p ∈ ps ∧ p_id p = sa_personId a)).
Proof.
  unfold join_activity.
  destruct (rows_with_id (sa_personId a) ps) as [|p0 rs] eqn:Hr.
  - apply rows_with_id_absent in Hr. rewrite list_elem_of_singleton. split.
    + intros ->. split; [done|]. by left.
    + intros [Ha [[Hp _]|(p & Hp & Hin & Hid)]].
      * destruct j; simpl in *; by subst.
      * destruct Hr. rewrite <- Hid. by apply list_elem_of_fmap_2.
  - rewrite <- Hr. rewrite list_elem_of_fmap. split.
    + intros (p & -> & Hp). split; [done|]. right. exists p.
      apply rows_with_id_elem in Hp as [Hid Hp]. done.
    + intros [Ha [[Hp Hout]|(p & Hp & Hin & Hid)]].
      * apply rows_with_id_absent in Hout. congruence.
      * exists p. split; [destruct j; simpl in *; by subst|].
        by apply rows_with_id_elem.
Qed.

Lemma elem_of_left_outer_join acts ps j :
  j ∈ left_outer_join acts ps ↔
  j_activity j ∈ acts ∧
  ((j_person j = None ∧ sa_personId (j_activity j) ∉ p_id <$> ps) ∨
   (∃ p, j_person j = Some p ∧ p ∈ ps ∧ p_id p = sa_personId (j_activity j))).
Proof.
  unfold left_outer_join. rewrite list_elem_of_bind. split.
  - intros (a & Hj & Ha). apply elem_of_join_activity in Hj as [<- Hj]. done.
  - intros [Ha Hj]. exists (j_activity j). split; [|done].
    by apply elem_of_join_activity.
Qed.

(** The group of a key of the join is not empty, and the row the engine
    picks in it is a row of the join with that key. *)
Lemma pick_in_group pick js k :
  picks_member pick → k ∈ group_key <$> js →
  pick (group k js) ∈ js ∧ group_key (pick (group k js)) = k.
Proof.
  intros Hpick (j & -> & Hj)%list_elem_of_fmap_1.
  assert (group (group_key j) js ≠ []) as Hne.
  { intros Hnil. assert (j ∈ group (group_key j) js) as Hin.
    { unfold group. by apply list_elem_of_filter. }
    rewrite Hnil in Hin. by apply elem_of_nil in Hin. }
  specialize (Hpick _ Hne). unfold group in Hpick at 2.
  apply list_elem_of_filter in Hpick as [Hk Hin]. done.
Qed.

Lemma personId_report_row pick g :
  personId (report_row pick g) = group_key (pick g).
Proof. done. Qed.

(** The ids of the rows of the report are the keys of the join, each once. *)
Lemma grouped_rows_ids pick acts ps :
  picks_member pick →
  personId <$> grouped_rows pick acts ps =
  remove_dups (group_key <$> left_outer_join acts ps).
Proof.
  intros Hpick. unfold grouped_rows. simpl.
  rewrite <- list_fmap_compose.
  rewrite <- (list_fmap_id (remove_dups _)) at 2.
  apply Forall_fmap_ext, Forall_forall. intros k Hk. simpl.
  rewrite elem_of_remove_dups in Hk.
  by destruct (pick_in_group pick _ k Hpick Hk) as [_ Hkey].
Qed.

Lemma elem_of_grouped_rows pick acts ps r :
  r ∈ grouped_rows pick acts ps ↔
  ∃ k, k ∈ group_key <$> left_outer_join acts ps ∧
       r = report_row pick (group k (left_outer_join acts ps)).
Proof.
  unfold grouped_rows. simpl. rewrite list_elem_of_fmap.
  split; intros (k & H1 & H2); exists k.
  - by rewrite elem_of_remove_dups in H2.
  - by rewrite elem_of_remove_dups.
Qed.

Lemma pick_first_member : picks_member pick_first.
Proof.
  intros [|j g] Hne; [done|]. unfold pick_first. simpl. apply elem_of_cons. by left.
Qed.

Lemma pick_last_member : picks_member pick_last.
Proof.
  intros g Hne. unfold pick_last.
  destruct (proj2 (last_is_Some g) Hne) as [j Hj]. rewrite Hj. simpl.
  apply last_Some in Hj as [g' ->]. apply elem_of_app. right.
  by apply list_elem_of_singleton.
Qed.

(** What the query returns, by the answer of the backend. *)
Lemma NamedStmt_Query_select pick arg w :
  NamedStmt_Query pick (mkNamedStmt SELECT_sessionActivity) arg w =
    match next_fault w with
    | Some _ => Ret (inl []) (advance w)
    | None =>
        Ret (inl (select_sessionActivity pick (sessionActivity w) (person w)))
            (advance w)
    end.
Proof.
  unfold NamedStmt_Query, bind, backend, get, ret. simpl.
  destruct (next_fault w); [done|].
  by rewrite advance_sessionActivity, advance_person.
Qed.

(** A row of the report with a NULL id has a NULL name, and the loop of
    [PrintSessionActivity] prints zero values for it. *)
Lemma report_row_NULL pick g :
  personId (report_row pick g) = None →
  personName (report_row pick g) = None ∧
  printed (report_row pick g) = ResultLine 0 "" zeroTime 0.
Proof.
  unfold printed, Scan, report_row. simpl.
  destruct (j_person (pick g)); [done|]. done.
Qed.

(** Under the primary key, the group of a stored id has one row for each
    activity recorded for the id. *)
Lemma group_of_stored_id acts ps id :
  NoDup (p_id <$> ps) → id ∈ p_id <$> ps →
  length (group (Some id) (left_outer_join acts ps)) =
  length (activities_of id acts).
Proof.
  intros Hnd Hin. unfold left_outer_join, activities_of, group.
  induction acts as [|a acts IH]; [done|].
  rewrite bind_cons, filter_app, length_app, IH. clear IH.
  unfold join_activity.
  destruct (decide (sa_personId a = id)) as [Heq|Hne].
  - rewrite (filter_cons_True _ a) by done. rewrite Heq.
    destruct (rows_with_id_unique id ps Hnd) as [Hr|[p Hr]].
    { by apply rows_with_id_absent in Hr. }
    rewrite Hr. simpl.
    assert (p_id p = id) as Hp.
    { eapply rows_with_id_elem. rewrite Hr. by apply list_elem_of_singleton. }
    rewrite filter_cons_True by (unfold group_key; simpl; by rewrite Hp).
    done.
  - rewrite (filter_cons_False _ a) by done.
    destruct (rows_with_id_unique (sa_personId a) ps Hnd) as [Hr|[p Hr]];
      rewrite Hr; simpl.
    + done.
    + assert (p_id p = sa_personId a) as Hp.
      { eapply rows_with_id_elem. rewrite Hr. by apply list_elem_of_singleton. }
      rewrite filter_cons_False; [done|].
      unfold group_key. simpl. congruence.
Qed.

(** C5. The report is the left outer join of the activities with the
    persons, grouped by the id of the person and ordered by dateTime.  An
    activity whose personId is the id of no person is still in the report:
    there is a row with NULL as name (and as id), which
    [PrintSessionActivity] prints with an empty name.  No two rows have the
    same person id, every person with an activity has its row, and the
    rows come in ascending order of dateTime. *)
Theorem C5_report_is_left_join_grouped_ordered pick db w :
  picks_member pick → prepared db → healthy 1 w →
  ∃ rows err w',
    NamedStmt_Query pick (mkNamedStmt SELECT_sessionActivity)
      (<["name" := VText "f"]> (<["id" := VInt 1]> ∅)) w
      = Ret (inl rows) (advance w) ∧
    PrintSessionActivity pick db w = Ret err w' ∧
    stdout w' = stdout w ++ (printed <$> rows) ∧
    (∀ a, a ∈ sessionActivity w → sa_personId a ∉ p_id <$> person w →
       ∃ r, r ∈ rows ∧ personName r = None ∧ personId r = None ∧
            printed r = ResultLine 0 "" zeroTime 0) ∧
    NoDup (personId <$> rows) ∧
    (∀ a, a ∈ sessionActivity w → sa_personId a ∈ p_id <$> person w →
       ∃ r, r ∈ rows ∧ personId r = Some (sa_personId a)) ∧
    StronglySorted earlier rows.
Proof.
  intros Hpick Hp [Hh _].
  exists (select_sessionActivity pick (sessionActivity w) (person w)).
  eexists _, _.
  rewrite NamedStmt_Query_select, PrintSessionActivity_eq, Hh by done.
  split; [done|]. split; [done|]. simpl.
  split; [done|].
  set (acts := sessionActivity w). set (ps := person w).
  set (js := left_outer_join acts ps).
  split; [|split; [|split]].
  - intros a Ha Hout.
    assert (None ∈ group_key <$> js) as Hk.
    { apply (list_elem_of_fmap_2' _ _ (mkJoined a None)); [|done].
      apply elem_of_left_outer_join. simpl. split; [done|]. by left. }
    exists (report_row pick (group None js)).
    split.
    { rewrite select_sessionActivity_perm. apply elem_of_grouped_rows. by exists None. }
    destruct (pick_in_group pick js None Hpick Hk) as [_ Hkey].
    destruct (report_row_NULL pick (group None js)) as [Hn Hl]; [done|].
    done.
  - rewrite select_sessionActivity_perm, grouped_rows_ids by done.
    apply NoDup_remove_dups.
  - intros a Ha (p & Hid & Hin)%list_elem_of_fmap_1.
    assert (Some (sa_personId a) ∈ group_key <$> js) as Hk.
    { apply (list_elem_of_fmap_2' _ _ (mkJoined a (Some p)));
        [|unfold group_key; simpl; by rewrite Hid].
      apply elem_of_left_outer_join. simpl. split; [done|]. right. by exists p. }
    exists (report_row pick (group (Some (sa_personId a)) js)).
    split.
    { rewrite select_sessionActivity_perm. apply elem_of_grouped_rows. by eexists. }
    by destruct (pick_in_group pick js _ Hpick Hk) as [_ Hkey].
  - apply select_sessionActivity_sorted.
Qed.

(** An activity of id 7, which no person has, and one of person 2. *)
Lemma C5_orphan_activity_is_reported :
  ∃ rows err w',
    NamedStmt_Query pick_last (mkNamedStmt SELECT_sessionActivity)
      (<["name" := VText "f"]> (<["id" := VInt 1]> ∅))
      (set_sessionActivity [mkActivity 1 7 3; mkActivity 2 2 4] example_stored)
      = Ret (inl rows)
          (advance (set_sessionActivity [mkActivity 1 7 3; mkActivity 2 2 4]
                      example_stored)) ∧
    PrintSessionActivity pick_last example_db
      (set_sessionActivity [mkActivity 1 7 3; mkActivity 2 2 4] example_stored)
      = Ret err w' ∧
    rows = [mkReport None None 3 1; mkReport (Some "Sue") (Some 2) 4 1] ∧
    (∃ r, r ∈ rows ∧ personName r = None) ∧
    StronglySorted earlier rows.
Proof.
  destruct (C5_report_is_left_join_grouped_ordered pick_last example_db
              (set_sessionActivity [mkActivity 1 7 3; mkActivity 2 2 4] example_stored))
    as (rows & err & w' & Hq & Hprint & _ & Horphan & _ & _ & Hsorted).
  - apply pick_last_member.
  - apply example_db_prepared.
  - by vm_compute.
  - exists rows, err, w'. split; [done|]. split; [done|].
    destruct (Horphan (mkActivity 1 7 3)) as (r & Hr & Hname & _).
    + apply elem_of_cons. by left.
    + change (7 ∉ [2]). rewrite list_elem_of_singleton. lia.
    + split; [|split; [by exists r|done]].
      vm_compute in Hq. by injection Hq as <-.
Defined.

(** C6, as the specification states it, fails, in two ways.  In the example
    of the specification, three activities of person 1 at the seconds 13,
    14 and 15, an engine that evaluates the bare dateTime on the first row
    of the group reports 13, not the time 15 of the third call; the count
    is 3.  And two ids without a person, with one activity each, share the
    one row of the NULL group whatever the engine picks: its count is 2,
    and [PrintSessionActivity] prints it as id 0 with count 0. *)
Lemma C6_timestamp_is_not_the_latest :
  (picks_member pick_first ∧
   person example_recorded = [mkPerson 1 "Andy2" 1] ∧
   sessionActivity example_recorded =
     [mkActivity 1 1 13; mkActivity 2 1 14; mkActivity 3 1 15] ∧
   select_sessionActivity pick_first
     (sessionActivity example_recorded) (person example_recorded) =
     [mkReport (Some "Andy2") (Some 1) 13 3] ∧
   ∃ w', PrintSessionActivity pick_first example_db example_recorded = Ret None w' ∧
         stdout w' = stdout example_recorded ++ [ResultLine 1 "Andy2" 13 3]) ∧
  (length (activities_of 7 (sessionActivity example_orphans)) = 1%nat ∧
   length (activities_of 8 (sessionActivity example_orphans)) = 1%nat ∧
   ∀ pick, picks_member pick →
     ∃ t, select_sessionActivity pick
            (sessionActivity example_orphans) (person example_orphans) =
            [mkReport None None t 2] ∧
          printed (mkReport None None t 2) = ResultLine 0 "" zeroTime 0).
Proof.
  split.
  - split; [apply pick_first_member|].
    split; [by vm_compute|]. split; [by vm_compute|]. split; [by vm_compute|].
    eexists. split; by vm_compute.
  - split; [done|]. split; [done|]. intros pick Hpick.
    set (js := [mkJoined (mkActivity 1 7 3) None; mkJoined (mkActivity 2 8 4) None]).
    exists (sa_dateTime (j_activity (pick js))). split; [|done].
    assert (j_person (pick js) = None) as Hnone.
    { assert (pick js ∈ js) as Hin by (by apply Hpick).
      unfold js in Hin at 2.
      apply elem_of_cons in Hin as [->|Hin]; [done|].
      apply list_elem_of_singleton in Hin as ->. done. }
    change (select_sessionActivity pick (sessionActivity example_orphans)
              (person example_orphans))
      with [report_row pick js].
    unfold report_row. by rewrite Hnone.
Qed.

(** C6, amended. For every person with a row in the report, the count of
    the row is the number of activities recorded for the person, and the
    dateTime of the row is the dateTime of one of these activities, the one
    the engine evaluates the bare column on; the query asks for no maximum.
    The name of the row is the name of the person, and
    [PrintSessionActivity] prints the row as it is. *)
Theorem C6_report_row_of_a_person pick db w :
  picks_member pick → prepared db → healthy 1 w →
  NoDup (p_id <$> person w) →
  ∃ rows err w',
    NamedStmt_Query pick (mkNamedStmt SELECT_sessionActivity)
      (<["name" := VText "f"]> (<["id" := VInt 1]> ∅)) w
      = Ret (inl rows) (advance w) ∧
    PrintSessionActivity pick db w = Ret err w' ∧
    stdout w' = stdout w ++ (printed <$> rows) ∧
    ∀ r id, r ∈ rows → personId r = Some id →
      ∃ p a,
        p ∈ person w ∧ p_id p = id ∧
        a ∈ activities_of id (sessionActivity w) ∧
        personName r = Some (p_name p) ∧
        dateTime r = sa_dateTime a ∧
        numItems r = Z.of_nat (length (activities_of id (sessionActivity w))) ∧
        printed r = ResultLine id (p_name p) (sa_dateTime a) (numItems r).
Proof.
  intros Hpick Hp [Hh _] Hnd.
  exists (select_sessionActivity pick (sessionActivity w) (person w)).
  eexists _, _.
  rewrite NamedStmt_Query_select, PrintSessionActivity_eq, Hh by done.
  split; [done|]. split; [done|]. simpl.
  split; [done|].
  set (acts := sessionActivity w). set (ps := person w).
  set (js := left_outer_join acts ps).
  intros r id Hr Hid.
  rewrite select_sessionActivity_perm in Hr.
  apply elem_of_grouped_rows in Hr as (k & Hk & ->). fold js in Hk, Hid |- *.
  destruct (pick_in_group pick js k Hpick Hk) as [Hj Hkey].
  rewrite personId_report_row, Hkey in Hid. subst k.
  apply elem_of_left_outer_join in Hj as [Ha [[Hnone _]|(p & Hsome & Hin & Hpid)]].
  { unfold group_key in Hkey. by rewrite Hnone in Hkey. }
  assert (p_id p = id) as Hp_id.
  { unfold group_key in Hkey. rewrite Hsome in Hkey. by injection Hkey. }
  exists p, (j_activity (pick (group (Some id) js))).
  split; [done|]. split; [done|].
  split. { unfold activities_of. apply list_elem_of_filter. split; [congruence|done]. }
  unfold printed, Scan, report_row. simpl. rewrite Hsome. simpl.
  rewrite Hp_id.
  split; [done|]. split; [done|]. split; [|done].
  f_equal. apply group_of_stored_id; [done|].
  rewrite <- Hp_id. by apply list_elem_of_fmap_2.
Qed.

(** The example of the specification under an engine that evaluates the
    bare columns on the last row of the group. *)
Lemma C6_three_activities_of_Andy2 :
  ∃ rows err w' a,
    PrintSessionActivity pick_last example_db example_recorded = Ret err w' ∧
    stdout w' = stdout example_recorded ++ (printed <$> rows) ∧
    rows = [mkReport (Some "Andy2") (Some 1) 15 3] ∧
    a ∈ sessionActivity example_recorded ∧
    printed (mkReport (Some "Andy2") (Some 1) 15 3) =
      ResultLine 1 "Andy2" (sa_dateTime a) 3.
Proof.
  destruct (C6_report_row_of_a_person pick_last example_db example_recorded)
    as (rows & err & w' & Hq & Hprint & Hout & Hrow).
  - apply pick_last_member.
  - apply example_db_prepared.
  - by vm_compute.
  - change (NoDup [1]). apply NoDup_singleton.
  - vm_compute in Hq. injection Hq as <-.
    destruct (Hrow (mkReport (Some "Andy2") (Some 1) 15 3) 1)
      as (p & a & Hp & Hid & Ha & Hname & Hdt & Hn & Hl).
    + apply list_elem_of_singleton. done.
    + done.
    + eexists _, err, w', a. split; [done|]. split; [exact Hout|].
      split; [done|].
      apply list_elem_of_filter in Ha as [_ Ha]. split; [done|].
      rewrite Hl. simpl in Hname. by injection Hname as <-.
Defined.

(** * Beyond the claims *)

(** ** What a computation leaves alone *)

Lemma next_fault_set_drivers d w : next_fault (set_drivers d w) = next_fault w.
Proof. done. Qed.
Lemma next_fault_set_pool p w : next_fault (set_pool p w) = next_fault w.
Proof. done. Qed.
Lemma next_fault_set_person t w : next_fault (set_person t w) = next_fault w.
Proof. done. Qed.
Lemma next_fault_set_sessionActivity t w :
  next_fault (set_sessionActivity t w) = next_fault w.
Proof. done. Qed.
Lemma next_fault_set_stdout o w : next_fault (set_stdout o w) = next_fault w.
Proof. done. Qed.

Lemma advance_set_drivers d w : advance (set_drivers d w) = set_drivers d (advance w).
Proof. destruct w as [d' p t a c s o]. unfold advance, set_drivers. simpl. by destruct s. Qed.
Lemma advance_set_pool p w : advance (set_pool p w) = set_pool p (advance w).
Proof. destruct w as [d p' t a c s o]. unfold advance, set_pool. simpl. by destruct s. Qed.

Create Rewrite HintDb world.
#[local] Hint Rewrite next_fault_set_drivers next_fault_set_pool
  next_fault_set_person next_fault_set_sessionActivity next_fault_set_stdout
  advance_set_drivers advance_set_pool advance_set_person
  advance_set_sessionActivity advance_set_stdout : world.

Section Frames.

Context {B : Type} (part : World → B).
Hypothesis part_advance : ∀ w, part (advance w) = part w.

Lemma frames_ret {A} (a : A) : frames part (ret a).
Proof. by intros w. Qed.

Lemma frames_panic {A} msg : frames part (@panic A msg).
Proof. by intros w. Qed.

Lemma frames_log_Fatal {A} msg : frames part (@log_Fatal A msg).
Proof. by intros w. Qed.

Lemma frames_get : frames part get.
Proof. by intros w. Qed.

Lemma frames_backend : frames part backend.
Proof. intros w. apply part_advance. Qed.

Lemma frames_modify f : (∀ w, part (f w) = part w) → frames part (modify f).
Proof. intros Hf w. apply Hf. Qed.

Lemma frames_bind {A C} (m : M A) (k : A → M C) :
  frames part m → (∀ a, frames part (k a)) → frames part (bind m k).
Proof.
  intros Hm Hk w. unfold bind. specialize (Hm w).
  destruct (m w) as [a w'| |]; [|done..].
  simpl in Hm. rewrite <- Hm. apply Hk.
Qed.

Lemma frames_statement db title : frames part (statement db title).
Proof. unfold statement. destruct (_ !! _); [apply frames_ret|apply frames_panic]. Qed.

End Frames.

Ltac frames :=
  repeat first
    [ apply frames_ret | apply frames_panic | apply frames_log_Fatal
    | apply frames_get | apply frames_statement
    | apply frames_backend; solve [auto using advance_person,
        advance_sessionActivity, advance_drivers, advance_stdout, advance_pool]
    | apply frames_modify; solve [auto]
    | apply frames_bind
    | match goal with
      | |- frames _ (match ?x with _ => _ end) => destruct x
      | |- frames _ (if ?x then _ else _) => destruct x
      | |- frames _ _ => fail 1
      | |- ∀ _, _ => intro
      end ].

(** ** Opening *)

Lemma frames_person_SQLiteDriver_Open dsn : frames person (SQLiteDriver_Open dsn).
Proof. unfold SQLiteDriver_Open, ConnectHook, attach_mem, Println. frames. Qed.

Lemma frames_person_conn dsn : frames person (conn dsn).
Proof. unfold conn. frames; apply frames_person_SQLiteDriver_Open. Qed.

Lemma frames_person_prepareEach todo db : frames person (prepareEach todo db).
Proof.
  revert db. induction todo as [|[title q] todo IH]; intros db; simpl; frames;
    apply IH.
Qed.

Lemma frames_person_New dbFilename : frames person (New dbFilename).
Proof.
  unfold New, sql_Register, sqlx_Connect, pragma_foreign_keys, run,
    initDbSchema, buildPreparedStatements, DB_Close.
  frames;
    auto using frames_person_SQLiteDriver_Open, frames_person_conn,
      frames_person_prepareEach.
Qed.

Ltac unfold_New :=
  unfold New, sql_Register, sqlx_Connect, SQLiteDriver_Open, ConnectHook,
    attach_mem, pragma_foreign_keys, conn, run, initDbSchema,
    buildPreparedStatements, preparedStatements, prepareEach, DB_Close,
    Println, bind, backend, get, modify, ret.

Ltac answer H := autorewrite with world; rewrite H; simpl.

(** [New] when the backend carries out all its commands but, possibly,
    the PRAGMA, which is the third. *)
Lemma New_opens dbFilename w :
  driverName ∉ drivers w →
  healthy 2 w → healthy 5 (advance (advance (advance w))) →
  ∃ w', New dbFilename w = Ret (Some all_prepared, None) w' ∧
        person w' = person w ∧ sessionActivity w' = [] ∧
        pool w' = [mkConn true] ∧ drivers w' = driverName :: drivers w ∧
        stdout w' = stdout w ++ [AttachLine (mkConn true)].
Proof.
  intros Hout (H1 & H2 & _) (H4 & H5 & H6 & H7 & H8 & _).
  unfold_New.
  rewrite bool_decide_false by done. simpl.
  answer H1. answer H2.
  autorewrite with world.
  destruct (next_fault (advance (advance w))); simpl;
    answer H4; answer H5; answer H6; answer H7; answer H8;
    (eexists; split; [done|]; simpl;
     by rewrite !advance_person, ?advance_drivers, !advance_stdout).
Qed.

(** X1. In a process that has not registered the driver, on a backend that
    carries out the eight commands of [New], [New] returns a handle and no
    error.  The handle has the four statements, the person table on disk is
    as it was, the activity table is empty, the pool holds one connection
    with the memory database attached, and one line has been printed. *)
Theorem X1_New_returns_a_prepared_handle dbFilename w :
  driverName ∉ drivers w → healthy 8 w →
  ∃ db w',
    New dbFilename w = Ret (Some db, None) w' ∧
    prepared db ∧
    person w' = person w ∧ sessionActivity w' = [] ∧
    pool w' = [mkConn true] ∧ drivers w' = driverName :: drivers w ∧
    stdout w' = stdout w ++ [AttachLine (mkConn true)].
Proof.
  intros Hout (H1 & H2 & H3 & Hrest).
  destruct (New_opens dbFilename w Hout) as (w' & Hnew & Hw); [by repeat split|done|].
  exists all_prepared, w'. split; [done|]. split; [apply all_prepared_prepared|done].
Qed.

(** Opening a disk file that holds person 2. *)
Lemma X1_New_on_a_disk_with_Sue :
  ∃ db w',
    New "diskDb.db" (start [mkPerson 2 "Sue" 5] 0 (replicate 8 (mkTick 1 None)))
      = Ret (Some db, None) w' ∧
    prepared db ∧ person w' = [mkPerson 2 "Sue" 5] ∧ sessionActivity w' = [] ∧
    pool w' = [mkConn true].
Proof.
  destruct (X1_New_returns_a_prepared_handle "diskDb.db"
              (start [mkPerson 2 "Sue" 5] 0 (replicate 8 (mkTick 1 None))))
    as (db & w' & Hnew & Hp & Hper & Hact & Hpool & _).
  - apply not_elem_of_nil.
  - by vm_compute.
  - by exists db, w'.
Defined.

(** X2. When the backend cannot open the file, [New] returns no handle and
    the error of the backend.  No connection is in the pool and both tables
    are as they were, but the driver is registered by then. *)
Theorem X2_New_returns_the_error_of_Connect dbFilename w msg :
  driverName ∉ drivers w → next_fault w = Some msg →
  ∃ w',
    New dbFilename w = Ret (None, Some msg) w' ∧
    pool w' = pool w ∧ person w' = person w ∧
    sessionActivity w' = sessionActivity w ∧ stdout w' = stdout w ∧
    drivers w' = driverName :: drivers w.
Proof.
  intros Hout H1. unfold_New.
  rewrite bool_decide_false by done. simpl.
  answer H1. eexists. split; [done|]. simpl.
  by rewrite advance_pool, advance_person, advance_sessionActivity, advance_stdout,
    ?advance_drivers.
Qed.

(** A disk file that cannot be opened. *)
Lemma X2_New_on_an_unreadable_file :
  ∃ w',
    New "diskDb.db" (start [] 0 [mkTick 0 (Some "unable to open database file")])
      = Ret (None, Some "unable to open database file") w' ∧
    pool w' = [] ∧ drivers w' = [driverName].
Proof.
  destruct (X2_New_returns_the_error_of_Connect "diskDb.db"
              (start [] 0 [mkTick 0 (Some "unable to open database file")])
              "unable to open database file")
    as (w' & Hnew & Hpool & _ & _ & _ & Hd).
  - apply not_elem_of_nil.
  - done.
  - by exists w'.
Defined.

(** X3. When the backend fails the creation of the schema, [New] closes
    the pool and returns no handle and the error of the backend, whatever
    became of the PRAGMA before.  The person table is as it was. *)
Theorem X3_New_closes_the_pool_when_the_schema_fails dbFilename w msg :
  driverName ∉ drivers w → healthy 2 w →
  next_fault (advance (advance (advance w))) = Some msg →
  ∃ w',
    New dbFilename w = Ret (None, Some msg) w' ∧
    pool w' = [] ∧ person w' = person w ∧
    sessionActivity w' = sessionActivity w.
Proof.
  intros Hout (H1 & H2 & _) H4. unfold_New.
  rewrite bool_decide_false by done. simpl.
  answer H1. answer H2.
  autorewrite with world.
  destruct (next_fault (advance (advance w))); simpl;
    answer H4;
    (eexists; split; [done|]; simpl;
     by rewrite !advance_person, !advance_sessionActivity).
Qed.

(** A disk that is full when the tables are to be created. *)
Lemma X3_New_on_a_full_disk :
  ∃ w',
    New "diskDb.db"
      (start [] 0 [mkTick 0 None; mkTick 0 None; mkTick 0 None;
                   mkTick 0 (Some "database or disk is full")])
      = Ret (None, Some "database or disk is full") w' ∧
    pool w' = [].
Proof.
  destruct (X3_New_closes_the_pool_when_the_schema_fails "diskDb.db"
              (start [] 0 [mkTick 0 None; mkTick 0 None; mkTick 0 None;
                           mkTick 0 (Some "database or disk is full")])
              "database or disk is full")
    as (w' & Hnew & Hpool & _).
  - apply not_elem_of_nil.
  - by vm_compute.
  - done.
  - by exists w'.
Defined.

(** X5. The error of [PRAGMA foreign_keys = ON] is dropped: when the
    backend fails the PRAGMA and carries out the other commands, [New]
    returns a prepared handle and no error all the same. *)
Theorem X5_New_drops_the_error_of_the_PRAGMA dbFilename w msg :
  driverName ∉ drivers w → healthy 2 w →
  next_fault (advance (advance w)) = Some msg →
  healthy 5 (advance (advance (advance w))) →
  ∃ db w',
    New dbFilename w = Ret (Some db, None) w' ∧ prepared db ∧
    pool w' = [mkConn true].
Proof.
  intros Hout Hh _ Hrest.
  destruct (New_opens dbFilename w Hout Hh Hrest) as (w' & Hnew & _ & _ & Hpool & _).
  exists all_prepared, w'. split; [done|]. split; [apply all_prepared_prepared|done].
Qed.

(** A backend that does not know the PRAGMA. *)
Lemma X5_New_without_foreign_keys :
  ∃ db w',
    New "diskDb.db"
      (start [] 0 [mkTick 0 None; mkTick 0 None; mkTick 0 (Some "out of memory")])
      = Ret (Some db, None) w' ∧ prepared db ∧ pool w' = [mkConn true].
Proof.
  apply (X5_New_drops_the_error_of_the_PRAGMA _ _ "out of memory").
  - apply not_elem_of_nil.
  - by vm_compute.
  - done.
  - by vm_compute.
Defined.

(** X6. [New] leaves the person table as it finds it, however it ends: with
    a handle, with an error, in [log.Fatal] or in a panic. *)
Theorem X6_New_keeps_the_person_table dbFilename w :
  person (world_of (New dbFilename w)) = person w.
Proof. apply frames_person_New. Qed.

(** ** Preparing the statements *)

Lemma prepareEach_four db w :
  (∃ w', prepareEach preparedStatements db w =
           Ret (mkEdDb (<["getSessionActivity" := mkNamedStmt SELECT_sessionActivity]>
                       (<["recordSessionActivity" := mkNamedStmt INSERT_sessionActivity]>
                       (<["updatePerson" := mkNamedStmt UPDATE_person]>
                       (<["insertPerson" := mkNamedStmt INSERT_OR_IGNORE_person]>
                          (statements db))))), None) w' ∧
         healthy 4 w) ∨
  (∃ title msg w',
     title ∈ preparedStatements.*1 ∧ first_fault 4 w = Some msg ∧
     prepareEach preparedStatements db w =
       Fatal ("buildPreparedStatement:" +:+ title +:+ " " +:+ msg) w').
Proof.
  unfold preparedStatements, prepareEach, bind, backend, log_Fatal, ret. simpl.
  destruct (next_fault w) as [m|] eqn:H1.
  { right. exists "insertPerson", m, (advance w). split; [set_solver|done]. }
  destruct (next_fault (advance w)) as [m|] eqn:H2.
  { right. exists "updatePerson", m, (advance (advance w)). split; [set_solver|done]. }
  destruct (next_fault (advance (advance w))) as [m|] eqn:H3.
  { right. exists "recordSessionActivity", m, (advance (advance (advance w))).
    split; [set_solver|done]. }
  destruct (next_fault (advance (advance (advance w)))) as [m|] eqn:H4.
  { right. exists "getSessionActivity", m, (advance (advance (advance (advance w)))).
    split; [set_solver|done]. }
  left. by eexists.
Qed.

(** X4. [buildPreparedStatements] never returns an error.  Either the
    backend compiles the four texts, and the handle comes back with every
    title bound to its statement, or the first text it fails ends the
    process in [log.Fatal] with the title and the error of the backend. *)
Theorem X4_buildPreparedStatements_returns_no_error db w :
  (∃ db' w',
     buildPreparedStatements db w = Ret (db', None) w' ∧
     prepared db' ∧ healthy 4 w) ∨
  (∃ title msg w',
     title ∈ preparedStatements.*1 ∧ first_fault 4 w = Some msg ∧
     buildPreparedStatements db w =
       Fatal ("buildPreparedStatement:" +:+ title +:+ " " +:+ msg) w').
Proof.
  unfold buildPreparedStatements.
  destruct (prepareEach_four db w) as [(w' & Heq & Hh)|Hfatal]; [left|by right].
  eexists _, w'. split; [exact Heq|]. split; [|done].
  intros title q Hin. unfold preparedStatements in Hin. simpl.
  repeat (apply elem_of_cons in Hin as [[= -> ->]|Hin];
          [by repeat (rewrite lookup_insert_ne by done); rewrite lookup_insert_eq|]).
  by apply elem_of_nil in Hin.
Qed.

(** ** Closing *)

Lemma advanced_person n w : person (advanced n w) = person w.
Proof. revert w. induction n as [|n IH]; intros w; simpl; [done|]. by rewrite IH, advance_person. Qed.

Lemma advanced_sessionActivity n w : sessionActivity (advanced n w) = sessionActivity w.
Proof.
  revert w. induction n as [|n IH]; intros w; simpl; [done|].
  by rewrite IH, advance_sessionActivity.
Qed.

Lemma advanced_drivers n w : drivers (advanced n w) = drivers w.
Proof. revert w. induction n as [|n IH]; intros w; simpl; [done|]. by rewrite IH, advance_drivers. Qed.

Lemma advanced_stdout n w : stdout (advanced n w) = stdout w.
Proof. revert w. induction n as [|n IH]; intros w; simpl; [done|]. by rewrite IH, advance_stdout. Qed.

(** [Close] of a prepared handle, whatever the backend answers. *)
Lemma Close_prepared db w :
  prepared db →
  Close db w = Ret tt (set_sessionActivity [] (set_pool [] (advanced 4 w))).
Proof.
  intros Hp. destruct titles_prepared as (Hi & Hu & Hr & Hg).
  unfold Close, closeEach, preparedStatements, DB_Close, drop_mem, bind.
  rewrite (prepared_statement _ _ _ _ Hp Hi). simpl.
  rewrite (prepared_statement _ _ _ _ Hp Hu). simpl.
  rewrite (prepared_statement _ _ _ _ Hp Hr). simpl.
  rewrite (prepared_statement _ _ _ _ Hp Hg). simpl.
  done.
Qed.

(** X8. [Close] of a handle with its four statements returns, whatever the
    backend answers to the four finalizations: their errors are dropped.
    It leaves the pool empty, and the rows of the activity table are gone
    with the memory database.  The person table, the output and the driver
    registry are as before. *)
Theorem X8_Close_returns_and_empties_the_pool db w :
  prepared db →
  ∃ w',
    Close db w = Ret tt w' ∧ pool w' = [] ∧
    person w' = person w ∧ sessionActivity w' = [] ∧
    stdout w' = stdout w ∧ drivers w' = drivers w.
Proof.
  intros Hp. eexists. split; [by apply Close_prepared|]. simpl.
  by rewrite !advance_person, !advance_stdout, !advance_drivers.
Qed.

(** Closing while the database is locked, with one activity recorded. *)
Lemma X8_Close_of_a_locked_database :
  ∃ w',
    Close example_db (set_sessionActivity [mkActivity 1 2 3] example_failing)
      = Ret tt w' ∧
    pool w' = [] ∧ person w' = [mkPerson 2 "Sue" 5] ∧ sessionActivity w' = [].
Proof.
  destruct (X8_Close_returns_and_empties_the_pool example_db
              (set_sessionActivity [mkActivity 1 2 3] example_failing))
    as (w' & Hc & Hpool & Hper & Hact & _).
  - apply example_db_prepared.
  - by exists w'.
Defined.

(** X7. A process cannot open the database again after [Close]: the driver
    stays registered, and [New] panics. *)
Theorem X7_New_after_Close_panics dbFilename1 dbFilename2 w db err w1 :
  New dbFilename1 w = Ret (Some db, err) w1 →
  ∃ w2,
    Close db w1 = Ret tt w2 ∧
    New dbFilename2 w2 =
      Panic ("sql: Register called twice for driver " +:+ driverName) w2.
Proof.
  intros Hnew. pose proof (New_prepared _ _ _ _ _ Hnew) as Hp.
  eexists. split; [by apply Close_prepared|].
  apply New_registered. simpl. rewrite !advance_drivers.
  apply New_drivers in Hnew as [_ ->]. apply elem_of_cons. by left.
Qed.

(** Open, close, and open the same file again. *)
Lemma X7_reopening_diskDb :
  ∃ w2,
    Close example_db example_world = Ret tt w2 ∧
    New "diskDb.db" w2 =
      Panic "sql: Register called twice for driver sqlite3ConnectionCatchingDriver" w2.
Proof.
  apply (X7_New_after_Close_panics "diskDb.db" "diskDb.db"
           (start [] 0 (replicate 30 (mkTick 1 None))) example_db None example_world).
  by vm_compute.
Defined.

(** ** Handles without their statements *)

(** X9. A call on a handle that does not have the statement the call
    starts with panics on the nil pointer, before any command reaches the
    backend: the world is as it was. *)
Theorem X9_missing_statement_panics pick db c w :
  statements db !! first_title c = None →
  call pick db c w =
    Panic "runtime error: invalid memory address or nil pointer dereference" w.
Proof.
  intros Hnone.
  destruct c; simpl in *;
    unfold UpsertPerson, RecordSessionActivity, PrintSessionActivity, bind, statement;
    by rewrite Hnone.
Qed.

(** The handle [EdDb{}], before any statement is prepared. *)
Lemma X9_upsert_on_an_empty_handle :
  UpsertPerson (mkEdDb ∅) 1 "Andy" example_world =
    Panic "runtime error: invalid memory address or nil pointer dereference"
      example_world.
Proof. by apply (X9_missing_statement_panics pick_last (mkEdDb ∅) (CallUpsertPerson 1 "Andy")). Defined.

(** ** Sequences of calls *)

Lemma healthy_add a b w : healthy (a + b) w ↔ healthy a w ∧ healthy b (advanced a w).
Proof.
  revert w. induction a as [|a IH]; intros w; simpl; [tauto|].
  rewrite IH. tauto.
Qed.

Lemma advanced_set_person n t w : advanced n (set_person t w) = set_person t (advanced n w).
Proof.
  revert w. induction n as [|n IH]; intros w; simpl; [done|].
  by rewrite advance_set_person, IH.
Qed.

Lemma sum_app (l1 l2 : list Z) :
  foldr Z.add 0 (l1 ++ l2) = foldr Z.add 0 l1 + foldr Z.add 0 l2.
Proof. induction l1 as [|x l1 IH]; simpl; lia. Qed.

Lemma total_writes_app t1 t2 :
  total_writes (t1 ++ t2) = total_writes t1 + total_writes t2.
Proof. unfold total_writes. by rewrite fmap_app, sum_app. Qed.

Lemma total_writes_update_person id name t :
  total_writes (update_person id name t) =
  total_writes t + Z.of_nat (length (rows_with_id id t)).
Proof.
  unfold total_writes, update_person, rows_with_id.
  induction t as [|r t IH]; [done|].
  rewrite !fmap_cons, filter_cons. cbn [foldr]. rewrite IH. unfold updated.
  destruct (decide (p_id r = id)); simpl; lia.
Qed.

(** Under the primary key an upsert is one more write. *)
Lemma total_writes_upserted id name t :
  NoDup (p_id <$> t) →
  total_writes (upserted id name t) = total_writes t + 1.
Proof.
  intros Hnd. unfold upserted, insert_or_ignore_person.
  rewrite update_person_ids. case_decide as Hin.
  - rewrite total_writes_update_person.
    destruct (rows_with_id_unique id t Hnd) as [Hr|[r Hr]]; rewrite Hr; [|done].
    by apply rows_with_id_absent in Hr.
  - rewrite total_writes_app, update_person_absent by done.
    unfold total_writes. simpl. lia.
Qed.

Lemma person_after_cons c cs t :
  person_after (c :: cs) t =
  person_after cs match c with
                  | CallUpsertPerson id name => upserted id name t
                  | _ => t
                  end.
Proof. done. Qed.

Lemma person_after_NoDup cs t :
  NoDup (p_id <$> t) → NoDup (p_id <$> person_after cs t).
Proof.
  revert t. induction cs as [|c cs IH]; intros t Hnd; [done|].
  rewrite person_after_cons. apply IH. destruct c; [by apply upserted_NoDup|done..].
Qed.

Lemma total_writes_person_after cs t :
  NoDup (p_id <$> t) →
  total_writes (person_after cs t) =
  total_writes t + Z.of_nat (length (upserted_ids cs)).
Proof.
  revert t. induction cs as [|c cs IH]; intros t Hnd.
  - simpl. lia.
  - rewrite person_after_cons. unfold upserted_ids. rewrite bind_cons, length_app.
    fold (upserted_ids cs). destruct c as [id name| |]; simpl.
    + rewrite IH by (by apply upserted_NoDup).
      rewrite total_writes_upserted by done. lia.
    + by apply IH.
    + by apply IH.
Qed.

(** The rows of an id after the calls of a list: the last name the calls
    give it, and one update for each of its upserts but the one that made
    the row. *)
Lemma rows_with_id_person_after id cs t :
  rows_with_id id (person_after cs t) =
    match last (names_for id cs) with
    | None => rows_with_id id t
    | Some name =>
        let n := Z.of_nat (length (names_for id cs)) in
        match rows_with_id id t with
        | [] => [mkPerson id name (n - 1)]
        | rs => (λ r, mkPerson id name (numUpdates r + n)) <$> rs
        end
    end.
Proof.
  revert t. induction cs as [|c cs IH]; intros t; [done|].
  rewrite person_after_cons, IH. unfold names_for. rewrite bind_cons.
  fold (names_for id cs).
  destruct c as [id' name'| |]; [|done..].
  destruct (decide (id' = id)) as [->|Hne]; cbv beta iota zeta.
  - rewrite rows_with_id_upserted.
    change ([name'] ++ names_for id cs) with (name' :: names_for id cs).
    destruct (names_for id cs) as [|n1 ns] eqn:Hns.
    + cbn [last length]. destruct (rows_with_id id t) as [|r rs]; [done|].
      cbv beta iota zeta. apply list_fmap_ext. intros _ r' _. done.
    + rewrite last_cons_cons.
      destruct (proj2 (last_is_Some (n1 :: ns)) ltac:(done)) as [name ->].
      rewrite (length_cons name').
      destruct (rows_with_id id t) as [|r rs]; cbv beta iota zeta.
      * rewrite fmap_cons, fmap_nil. cbn [numUpdates]. do 2 f_equal. lia.
      * rewrite (fmap_cons _ r rs). cbv beta iota. rewrite !fmap_cons.
        cbn [numUpdates]. f_equal; [f_equal; lia|].
        rewrite <- list_fmap_compose. apply list_fmap_ext.
        intros _ r' _. simpl. f_equal. lia.
  - rewrite app_nil_l.
    by rewrite rows_with_id_upserted_ne by done.
Qed.

(** A call the backend carries out returns, and leaves the backend with
    the rest of its script. *)
Lemma call_healthy pick db c w :
  prepared db → healthy (commands c) w →
  ∃ e w1,
    call pick db c w = Ret e w1 ∧
    person w1 = person_after [c] (person w) ∧
    (∀ n, healthy n (advanced (commands c) w) → healthy n w1).
Proof.
  intros Hp Hh. destruct c as [id name|personID|]; simpl in *.
  - rewrite UpsertPerson_healthy by done. eexists _, _. split; [done|].
    split; [done|]. intros n Hn. by apply healthy_set_person.
  - destruct Hh as [H1 _]. rewrite RecordSessionActivity_eq, H1 by done.
    eexists _, _. split; [done|]. simpl. rewrite advance_person.
    split; [done|]. intros n Hn. by apply healthy_set_sessionActivity.
  - destruct Hh as [H1 _]. rewrite PrintSessionActivity_eq, H1 by done.
    eexists _, _. split; [done|]. simpl. rewrite advance_person.
    split; [done|]. intros n Hn. by apply healthy_set_stdout.
Qed.

Lemma run_calls_healthy pick db cs w :
  prepared db → healthy (commands_of cs) w →
  ∃ es w',
    run_calls pick db cs w = Ret es w' ∧
    person w' = person_after cs (person w).
Proof.
  intros Hp. revert w. induction cs as [|c cs IH]; intros w Hh.
  - by exists [], w.
  - simpl in Hh. apply healthy_add in Hh as [Hc Hrest].
    destruct (call_healthy pick db c w Hp Hc) as (e & w1 & Hcall & Hper & Hnext).
    destruct (IH w1 (Hnext _ Hrest)) as (es & w' & Hrun & Hper').
    exists (e :: es), w'. simpl. unfold bind. rewrite Hcall, Hrun.
    split; [done|]. rewrite Hper', Hper. done.
Qed.

(** X16. Under the primary key, the person table counts the upserts: the
    number of its rows plus the sum of their numUpdates grows by one with
    every upsert of a sequence of calls that the backend carries out, and
    by nothing with the other calls. *)
Theorem X16_person_table_counts_the_upserts pick db cs w :
  prepared db → healthy (commands_of cs) w → NoDup (p_id <$> person w) →
  ∃ es w',
    run_calls pick db cs w = Ret es w' ∧
    total_writes (person w') =
      total_writes (person w) + Z.of_nat (length (upserted_ids cs)).
Proof.
  intros Hp Hh Hnd.
  destruct (run_calls_healthy pick db cs w Hp Hh) as (es & w' & Hrun & Hper).
  exists es, w'. split; [done|].
  rewrite Hper. by apply total_writes_person_after.
Qed.

(** Three upserts and a recording on the table with Sue, who counts for
    six writes. *)
Lemma X16_three_upserts_are_three_writes :
  ∃ es w',
    run_calls pick_last example_db
      [CallUpsertPerson 2 "Jim"; CallRecordSessionActivity 2;
       CallUpsertPerson 1 "Andy"; CallUpsertPerson 2 "Sue"] example_ticking
      = Ret es w' ∧
    total_writes (person w') = 9.
Proof.
  destruct (X16_person_table_counts_the_upserts pick_last example_db
              [CallUpsertPerson 2 "Jim"; CallRecordSessionActivity 2;
               CallUpsertPerson 1 "Andy"; CallUpsertPerson 2 "Sue"] example_ticking)
    as (es & w' & Hrun & Htotal).
  - apply example_db_prepared.
  - by vm_compute.
  - change (NoDup [2]). apply NoDup_singleton.
  - by exists es, w'.
Defined.

(** X17. After a sequence of calls that the backend carries out, an id
    that the sequence upserts has the name of its last upsert.  A row the
    id had before has one update more for each of its upserts; a row the
    sequence made has one update for each upsert after the first.  An id
    the sequence does not upsert has the rows it had. *)
Theorem X17_rows_after_a_sequence_of_calls pick db cs w id :
  prepared db → healthy (commands_of cs) w →
  ∃ es w',
    run_calls pick db cs w = Ret es w' ∧
    rows_with_id id (person w') =
      match last (names_for id cs) with
      | None => rows_with_id id (person w)
      | Some name =>
          let n := Z.of_nat (length (names_for id cs)) in
          match rows_with_id id (person w) with
          | [] => [mkPerson id name (n - 1)]
          | rs => (λ r, mkPerson id name (numUpdates r + n)) <$> rs
          end
      end.
Proof.
  intros Hp Hh.
  destruct (run_calls_healthy pick db cs w Hp Hh) as (es & w' & Hrun & Hper).
  exists es, w'. split; [done|].
  rewrite Hper. apply rows_with_id_person_after.
Qed.

(** Sue, updated five times, is upserted twice; Andy is new and upserted
    three times. *)
Lemma X17_Sue_and_Andy :
  ∃ es w',
    run_calls pick_last example_db
      [CallUpsertPerson 2 "Jim"; CallUpsertPerson 1 "Andy";
       CallUpsertPerson 1 "Andy2"; CallUpsertPerson 2 "Sue";
       CallUpsertPerson 1 "Andy3"] example_ticking
      = Ret es w' ∧
    rows_with_id 2 (person w') = [mkPerson 2 "Sue" 7] ∧
    rows_with_id 1 (person w') = [mkPerson 1 "Andy3" 2].
Proof.
  destruct (X17_rows_after_a_sequence_of_calls pick_last example_db
              [CallUpsertPerson 2 "Jim"; CallUpsertPerson 1 "Andy";
               CallUpsertPerson 1 "Andy2"; CallUpsertPerson 2 "Sue";
               CallUpsertPerson 1 "Andy3"] example_ticking 2)
    as (es & w' & Hrun & Hrows).
  - apply example_db_prepared.
  - by vm_compute.
  - exists es, w'. split; [done|]. split; [exact Hrows|].
    vm_compute in Hrun. injection Hrun as _ <-. by vm_compute.
Defined.

(** ** The activity table under the calls *)

Lemma next_rowid_above t a : a ∈ t → sa_id a < next_rowid t.
Proof.
  unfold next_rowid. induction t as [|b t IH]; intros Hin.
  - by apply elem_of_nil in Hin.
  - rewrite fmap_cons. cbn [foldr].
    apply elem_of_cons in Hin as [->|Hin]; [lia|].
    specialize (IH Hin). lia.
Qed.

(** What a call does to the activity table and to the clock, however it
    ends. *)
Lemma call_sessionActivity pick db c w :
  prepared db →
  let w' := world_of (call pick db c w) in
  clock w ≤ clock w' ∧
  (sessionActivity w' = sessionActivity w ∨
   ∃ personID,
     c = CallRecordSessionActivity personID ∧
     sessionActivity w' =
       sessionActivity w ++
         [mkActivity (next_rowid (sessionActivity w)) personID (clock w')]).
Proof.
  intros Hp. destruct c as [id name|personID|]; simpl.
  - rewrite UpsertPerson_eq by done.
    destruct (next_fault w); simpl.
    { rewrite advance_sessionActivity. split; [apply advance_clock|by left]. }
    destruct (next_fault _); simpl;
      autorewrite with world; simpl; rewrite !advance_sessionActivity;
      (split; [|by left]);
      pose proof (advance_clock w); pose proof (advance_clock (advance w)); lia.
  - rewrite RecordSessionActivity_eq by done.
    destruct (next_fault w); simpl.
    { rewrite advance_sessionActivity. split; [apply advance_clock|by left]. }
    rewrite advance_sessionActivity. split; [apply advance_clock|].
    right. by exists personID.
  - rewrite PrintSessionActivity_eq by done.
    destruct (next_fault w); simpl;
      rewrite advance_sessionActivity; (split; [apply advance_clock|by left]).
Qed.

Section Steps.

(** A relation between the world before and the world after that every
    call keeps, is kept by every sequence of calls, however it ends. *)
Context (pick : list Joined → Joined) (db : EdDb).
Context (R : World → World → Prop).
Hypothesis R_refl : ∀ w, R w w.
Hypothesis R_trans : ∀ w1 w2 w3, R w1 w2 → R w2 w3 → R w1 w3.
Hypothesis call_step : ∀ c w, R w (world_of (call pick db c w)).

Lemma run_calls_steps cs w : R w (world_of (run_calls pick db cs w)).
Proof.
  revert w. induction cs as [|c cs IH]; intros w; simpl; [apply R_refl|].
  unfold bind. pose proof (call_step c w) as Hc.
  destruct (call pick db c w) as [e w1|msg w1|msg w1]; simpl in Hc; [|done..].
  specialize (IH w1).
  destruct (run_calls pick db cs w1) as [es w2|msg w2|msg w2]; simpl in *;
    by eapply R_trans.
Qed.

End Steps.

(** X10. The activity table is append-only: under every sequence of calls
    on a prepared handle, however it ends, the rows that were in the table
    are still there, in their places and unchanged, before the new ones. *)
Theorem X10_activity_table_is_append_only pick db cs w :
  prepared db →
  sessionActivity w `prefix_of`
    sessionActivity (world_of (run_calls pick db cs w)).
Proof.
  intros Hp.
  apply (run_calls_steps pick db
           (λ w w', sessionActivity w `prefix_of` sessionActivity w')).
  - done.
  - intros w1 w2 w3 H12 H23. by etrans.
  - intros c w0.
    destruct (call_sessionActivity pick db c w0 Hp) as [_ [->|(personID & _ & ->)]];
      [done|by apply prefix_app_r].
Qed.

(** Two recordings around a report keep the row that was there. *)
Lemma X10_recordings_after_a_row :
  [mkActivity 1 7 3] `prefix_of`
    sessionActivity
      (world_of (run_calls pick_last example_db
                   [CallRecordSessionActivity 2; CallPrintSessionActivity;
                    CallRecordSessionActivity 9]
                   (set_sessionActivity [mkActivity 1 7 3] example_stored))).
Proof.
  apply (X10_activity_table_is_append_only pick_last example_db
           [CallRecordSessionActivity 2; CallPrintSessionActivity;
            CallRecordSessionActivity 9]
           (set_sessionActivity [mkActivity 1 7 3] example_stored)).
  apply example_db_prepared.
Defined.

(** X11. The ids of the activity table stay free of duplicates under
    every sequence of calls on a prepared handle, however it ends: a new
    row gets an id above all the ids in the table. *)
Theorem X11_activity_ids_stay_unique pick db cs w :
  prepared db → NoDup (sa_id <$> sessionActivity w) →
  NoDup (sa_id <$> sessionActivity (world_of (run_calls pick db cs w))).
Proof.
  intros Hp.
  apply (run_calls_steps pick db
           (λ w w', NoDup (sa_id <$> sessionActivity w) →
                    NoDup (sa_id <$> sessionActivity w'))).
  - by intros w0 Hnd.
  - intros w1 w2 w3 H12 H23 Hnd. by apply H23, H12.
  - intros c w0 Hnd.
    destruct (call_sessionActivity pick db c w0 Hp) as [_ [->|(personID & _ & ->)]];
      [done|].
    rewrite fmap_app. apply NoDup_app. split; [done|]. split; [|apply NoDup_singleton].
    intros i (a & -> & Ha)%list_elem_of_fmap_1. simpl.
    rewrite list_elem_of_singleton.
    pose proof (next_rowid_above _ _ Ha). lia.
Qed.

(** Recordings after rows 1 and 5 get the ids 6 and 7. *)
Lemma X11_ids_after_1_and_5 :
  NoDup (sa_id <$> sessionActivity
           (world_of (run_calls pick_last example_db
                        [CallRecordSessionActivity 2; CallRecordSessionActivity 2]
                        (set_sessionActivity [mkActivity 1 7 3; mkActivity 5 7 3]
                           example_stored)))) ∧
  sa_id <$> sessionActivity
    (world_of (run_calls pick_last example_db
                 [CallRecordSessionActivity 2; CallRecordSessionActivity 2]
                 (set_sessionActivity [mkActivity 1 7 3; mkActivity 5 7 3]
                    example_stored))) = [1; 5; 6; 7].
Proof.
  split; [|by vm_compute].
  apply (X11_activity_ids_stay_unique pick_last example_db
           [CallRecordSessionActivity 2; CallRecordSessionActivity 2]
           (set_sessionActivity [mkActivity 1 7 3; mkActivity 5 7 3] example_stored)).
  - apply example_db_prepared.
  - change (NoDup [1; 5]). apply NoDup_cons. split; [|apply NoDup_singleton].
    rewrite list_elem_of_singleton. lia.
Defined.

(** X12. The activity table stays in the order of time: when its rows are
    in ascending order of dateTime and none is later than the clock, this
    is so after every sequence of calls on a prepared handle, however it
    ends. *)
Theorem X12_activity_table_stays_in_time_order pick db cs w :
  prepared db → in_time_order w →
  in_time_order (world_of (run_calls pick db cs w)).
Proof.
  intros Hp.
  apply (run_calls_steps pick db (λ w w', in_time_order w → in_time_order w')).
  - by intros w0 H0.
  - intros w1 w2 w3 H12 H23 H1. by apply H23, H12.
  - intros c w0 [Hsorted Hclock].
    destruct (call_sessionActivity pick db c w0 Hp)
      as [Hle [Heq|(personID & _ & Heq)]]; unfold in_time_order; rewrite Heq.
    + split; [done|]. intros a Ha. specialize (Hclock a Ha). lia.
    + split.
      * rewrite fmap_app. apply StronglySorted_app.
        split; [|split; [done|simpl; repeat constructor]].
        intros t1 t2 (a & -> & Ha)%list_elem_of_fmap_1 Ht2. simpl in Ht2.
        apply list_elem_of_singleton in Ht2 as ->.
        specialize (Hclock a Ha). lia.
      * intros a [Ha| ->%list_elem_of_singleton]%elem_of_app; [|simpl; lia].
        specialize (Hclock a Ha). lia.
Qed.

(** Three recordings, a second apart, after a row of second 3. *)
Lemma X12_recordings_in_time_order :
  in_time_order
    (world_of (run_calls pick_last example_db
                 [CallRecordSessionActivity 2; CallRecordSessionActivity 7;
                  CallRecordSessionActivity 2]
                 (set_sessionActivity [mkActivity 1 7 3] example_ticking))) ∧
  sa_dateTime <$> sessionActivity
    (world_of (run_calls pick_last example_db
                 [CallRecordSessionActivity 2; CallRecordSessionActivity 7;
                  CallRecordSessionActivity 2]
                 (set_sessionActivity [mkActivity 1 7 3] example_ticking)))
    = [3; 9; 10; 11].
Proof.
  split; [|by vm_compute].
  apply (X12_activity_table_stays_in_time_order pick_last example_db
           [CallRecordSessionActivity 2; CallRecordSessionActivity 7;
            CallRecordSessionActivity 2]
           (set_sessionActivity [mkActivity 1 7 3] example_ticking)).
  - apply example_db_prepared.
  - split.
    + change (StronglySorted Z.le [3]). repeat constructor.
    + intros a Ha. change (a ∈ [mkActivity 1 7 3]) in Ha.
      apply list_elem_of_singleton in Ha as ->. by vm_compute.
Defined.

(** ** More on the report *)

(** X13. [PrintSessionActivity] on a prepared handle only reads: however
    it ends, both tables, the pool and the driver registry are as they
    were.  When the backend carries out the query it prints one line for
    each row of the result after what was printed before; on an empty
    activity table it prints nothing and returns nil. *)
Theorem X13_PrintSessionActivity_only_reads pick db w :
  prepared db →
  let r := PrintSessionActivity pick db w in
  person (world_of r) = person w ∧
  sessionActivity (world_of r) = sessionActivity w ∧
  pool (world_of r) = pool w ∧ drivers (world_of r) = drivers w ∧
  (next_fault w = None →
     stdout (world_of r) =
       stdout w ++
         (printed <$> select_sessionActivity pick (sessionActivity w) (person w)) ∧
     (sessionActivity w = [] → r = Ret None (advance w))).
Proof.
  intros Hp r. subst r. rewrite PrintSessionActivity_eq by done.
  destruct (next_fault w); simpl;
    rewrite advance_person, advance_sessionActivity, advance_pool, advance_drivers.
  - repeat split; done.
  - repeat split; try done. intros Hempty. rewrite Hempty.
    change (select_sessionActivity pick [] (person w)) with (@nil ReportRow).
    simpl. rewrite app_nil_r. f_equal.
    rewrite <- (advance_stdout w). by destruct (advance w).
Qed.

(** A report before any activity is recorded. *)
Lemma X13_report_without_activities :
  PrintSessionActivity pick_last example_db example_stored =
    Ret None (advance example_stored) ∧
  person (advance example_stored) = [mkPerson 2 "Sue" 5].
Proof.
  destruct (X13_PrintSessionActivity_only_reads pick_last example_db example_stored)
    as (_ & _ & _ & _ & Hok).
  - apply example_db_prepared.
  - destruct Hok as [_ Hempty]; [done|]. split; [by apply Hempty|done].
Defined.

(** X14. The error [PrintSessionActivity] returns is the error of the scan
    of the last row alone: it returns nil exactly when the result is empty
    or the name and the id of its last row are not NULL.  A scan that
    failed on an earlier row is forgotten. *)
Theorem X14_PrintSessionActivity_returns_the_last_scan_error pick db w :
  prepared db → next_fault w = None →
  ∃ err w',
    PrintSessionActivity pick db w = Ret err w' ∧
    err = match last (select_sessionActivity pick (sessionActivity w) (person w)) with
          | None => None
          | Some r => snd (Scan r)
          end ∧
    (err = None ↔
     ∀ r, last (select_sessionActivity pick (sessionActivity w) (person w)) = Some r →
          is_Some (personName r) ∧ is_Some (personId r)).
Proof.
  intros Hp Hh. rewrite PrintSessionActivity_eq, Hh by done. simpl.
  eexists _, _. split; [done|]. rewrite fmap_last.
  destruct (last _) as [r|]; simpl; [|by split].
  split; [done|]. unfold Scan.
  destruct (personName r) as [name|] eqn:Hn, (personId r) as [i|] eqn:Hi; simpl.
  - split; [|done]. intros _ r' [= <-]. rewrite Hn, Hi. by split.
  - split; [done|]. intros H. destruct (H r eq_refl) as [_ [? Hs]].
    rewrite Hi in Hs. done.
  - split; [done|]. intros H. destruct (H r eq_refl) as [[? Hs] _].
    rewrite Hn in Hs. done.
  - split; [done|]. intros H. destruct (H r eq_refl) as [[? Hs] _].
    rewrite Hn in Hs. done.
Qed.

(** The row of an id without a person comes first and its scan fails; the
    row of Sue comes last, and nil is returned. *)
Lemma X14_an_earlier_scan_error_is_forgotten :
  ∃ w',
    PrintSessionActivity pick_last example_db
      (set_sessionActivity [mkActivity 1 7 3; mkActivity 2 2 4] example_stored)
      = Ret None w' ∧
    stdout w' =
      stdout example_stored ++
        [ResultLine 0 "" zeroTime 0; ResultLine 2 "Sue" 4 1] ∧
    snd (Scan (mkReport None None 3 1)) ≠ None.
Proof.
  destruct (X14_PrintSessionActivity_returns_the_last_scan_error pick_last example_db
              (set_sessionActivity [mkActivity 1 7 3; mkActivity 2 2 4] example_stored))
    as (err & w' & Hprint & Herr & _).
  - apply example_db_prepared.
  - done.
  - exists w'. vm_compute in Herr. subst err. split; [done|].
    vm_compute in Hprint. injection Hprint as <-. split; [by vm_compute|done].
Defined.

Lemma sum_Permutation (l k : list Z) :
  l ≡ₚ k → foldr Z.add 0 l = foldr Z.add 0 k.
Proof. induction 1; simpl; lia. Qed.

Lemma sum_pointwise {A} (f g : A → Z) (l : list A) :
  foldr Z.add 0 ((λ x, f x + g x) <$> l) =
  foldr Z.add 0 (f <$> l) + foldr Z.add 0 (g <$> l).
Proof. induction l as [|x l IH]; [done|]. rewrite !fmap_cons. cbn [foldr]. lia. Qed.

(** In a list without duplicates a key is met once. *)
Lemma sum_indicator (k0 : option Z) (ks : list (option Z)) :
  NoDup ks → k0 ∈ ks →
  foldr Z.add 0 ((λ k, if decide (k0 = k) then 1 else 0) <$> ks) = 1.
Proof.
  induction ks as [|k ks IH]; intros Hnd Hin.
  - by apply elem_of_nil in Hin.
  - apply NoDup_cons in Hnd as [Hk Hnd]. rewrite fmap_cons. cbn [foldr].
    destruct (decide (k0 = k)) as [->|Hne].
    + assert (foldr Z.add 0 ((λ k', if decide (k = k') then 1 else 0) <$> ks) = 0)
        as ->; [|done].
      clear IH Hin Hnd. induction ks as [|k' ks IH]; [done|].
      apply not_elem_of_cons in Hk as [Hne Hk]. rewrite fmap_cons. cbn [foldr].
      rewrite decide_False by done. by rewrite IH.
    + apply elem_of_cons in Hin as [?|Hin]; [done|]. by rewrite IH.
Qed.

(** The groups of the keys share out the rows of the join. *)
Lemma sum_of_groups (js : list Joined) (ks : list (option Z)) :
  NoDup ks → (∀ j, j ∈ js → group_key j ∈ ks) →
  foldr Z.add 0 ((λ k, Z.of_nat (length (group k js))) <$> ks) =
  Z.of_nat (length js).
Proof.
  intros Hnd. induction js as [|j js IH]; intros Hin.
  - clear. induction ks as [|k ks IH]; [done|]. rewrite fmap_cons. cbn [foldr].
    by rewrite IH.
  - transitivity
      (foldr Z.add 0
         ((λ k, (if decide (group_key j = k) then 1 else 0) +
                Z.of_nat (length (group k js))) <$> ks)).
    { f_equal. apply list_fmap_ext. intros _ k _. unfold group.
      rewrite filter_cons. destruct (decide (group_key j = k)); simpl; lia. }
    rewrite sum_pointwise, sum_indicator, IH.
    + simpl. lia.
    + intros j' Hj'. apply Hin. by right.
    + done.
    + apply Hin. by left.
Qed.

(** Under the primary key every activity is in the join once. *)
Lemma length_left_outer_join acts ps :
  NoDup (p_id <$> ps) → length (left_outer_join acts ps) = length acts.
Proof.
  intros Hnd. unfold left_outer_join.
  induction acts as [|a acts IH]; [done|].
  rewrite bind_cons, length_app, IH. unfold join_activity.
  by destruct (rows_with_id_unique (sa_personId a) ps Hnd) as [->|[p ->]].
Qed.

(** X15. Under the primary key of person the report counts every activity
    once: the counts of its rows add up to the number of rows of the
    activity table, whatever rows the engine evaluates the bare columns
    on. *)
Theorem X15_report_counts_every_activity_once pick db w :
  prepared db → next_fault w = None → NoDup (p_id <$> person w) →
  ∃ rows err w',
    NamedStmt_Query pick (mkNamedStmt SELECT_sessionActivity)
      (<["name" := VText "f"]> (<["id" := VInt 1]> ∅)) w
      = Ret (inl rows) (advance w) ∧
    PrintSessionActivity pick db w = Ret err w' ∧
    stdout w' = stdout w ++ (printed <$> rows) ∧
    foldr Z.add 0 (numItems <$> rows) = Z.of_nat (length (sessionActivity w)).
Proof.
  intros Hp Hh Hnd.
  exists (select_sessionActivity pick (sessionActivity w) (person w)).
  eexists _, _.
  rewrite NamedStmt_Query_select, PrintSessionActivity_eq, Hh by done.
  split; [done|]. split; [done|]. split; [done|].
  rewrite (sum_Permutation _ (numItems <$> grouped_rows pick (sessionActivity w) (person w)))
    by (by rewrite select_sessionActivity_perm).
  unfold grouped_rows. cbv zeta. rewrite <- list_fmap_compose.
  rewrite <- (length_left_outer_join _ _ Hnd).
  apply (sum_of_groups (left_outer_join (sessionActivity w) (person w))).
  - apply NoDup_remove_dups.
  - intros j Hj. apply elem_of_remove_dups. by apply list_elem_of_fmap_2.
Qed.

(** Five activities of three ids, one of them unknown, in two rows. *)
Lemma X15_five_activities_in_two_rows :
  ∃ rows err w',
    PrintSessionActivity pick_first example_db
      (set_sessionActivity
         [mkActivity 1 7 3; mkActivity 2 2 4; mkActivity 3 8 5;
          mkActivity 4 2 6; mkActivity 5 7 7] example_stored)
      = Ret err w' ∧
    stdout w' = stdout example_stored ++ (printed <$> rows) ∧
    numItems <$> rows = [3; 2] ∧
    foldr Z.add 0 (numItems <$> rows) = 5.
Proof.
  destruct (X15_report_counts_every_activity_once pick_first example_db
              (set_sessionActivity
                 [mkActivity 1 7 3; mkActivity 2 2 4; mkActivity 3 8 5;
                  mkActivity 4 2 6; mkActivity 5 7 7] example_stored))
    as (rows & err & w' & Hq & Hprint & Hout & Hsum).
  - apply example_db_prepared.
  - done.
  - change (NoDup [2]). apply NoDup_singleton.
  - exists rows, err, w'. split; [done|]. split; [exact Hout|].
    split; [|exact Hsum].
    vm_compute in Hq. by injection Hq as <-.
Defined.

(** ** The workers of ed.go *)

Lemma Intn4_range raw : 0 ≤ Intn4 raw < 4.
Proof.
  unfold Intn4. change 3 with (Z.ones 2). rewrite Z.land_ones by lia.
  apply Z.mod_pos_bound. lia.
Qed.

(** [names[which]] is in range for every [which] that [rand.Intn(4)]
    gives. *)
Lemma names_Intn4 raw : ∃ name, names !! Z.to_nat (Intn4 raw) = Some name.
Proof.
  pose proof (Intn4_range raw) as Hr.
  assert (Intn4 raw = 0 ∨ Intn4 raw = 1 ∨ Intn4 raw = 2 ∨ Intn4 raw = 3)
    as [-> | [-> | [-> | ->]]] by lia; by eexists.
Qed.

Lemma sessionUpdates_healthy db n w :
  prepared db → healthy n w →
  ∃ added w',
    sessionUpdates n (Some db) w = Ret tt w' ∧
    sessionActivity w' = sessionActivity w ++ added ∧
    length added = n ∧
    (∀ a, a ∈ added → sa_personId a = 0 ∧ clock w ≤ sa_dateTime a ≤ clock w') ∧
    person w' = person w ∧ stdout w' = stdout w.
Proof.
  intros Hp. revert w. induction n as [|n IH]; intros w Hh.
  - exists [], w. rewrite app_nil_r.
    split; [done|]. split; [done|]. split; [done|]. split; [|done].
    intros a Ha. by apply elem_of_nil in Ha.
  - destruct Hh as [H1 Hh]. simpl. unfold bind.
    rewrite RecordSessionActivity_eq, H1 by done.
    set (w1 := set_sessionActivity _ (advance w)).
    destruct (IH w1) as (added & w' & Hrun & Hact & Hlen & Hrows & Hper & Hout).
    { by apply healthy_set_sessionActivity. }
    rewrite Hrun.
    exists (mkActivity (next_rowid (sessionActivity w)) 0 (clock (advance w)) :: added), w'.
    split; [done|].
    assert (clock w1 = clock (advance w)) as Hc1 by done.
    pose proof (advance_clock w) as Hadv.
    assert (clock (advance w) ≤ clock w') as Hmono.
    { destruct added as [|a added'].
      - simpl in Hlen. subst n. injection Hrun as <-. by rewrite Hc1.
      - destruct (Hrows a) as [_ Ha]; [by left|]. rewrite Hc1 in Ha. lia. }
    split.
    { rewrite Hact. subst w1. simpl. rewrite advance_sessionActivity.
      unfold insert_sessionActivity. by rewrite <- app_assoc. }
    split; [simpl; by rewrite Hlen|].
    split.
    { intros a [->|Ha]%elem_of_cons; [simpl; lia|].
      destruct (Hrows a Ha) as [H0 Ht]. rewrite Hc1 in Ht. split; [done|lia]. }
    subst w1. simpl in *. by rewrite Hper, Hout, advance_person, advance_stdout.
Qed.

(** X18. [sessionUpdater], run on its own on a prepared handle and a
    backend that carries out its statements, adds one activity of person 0
    for each iteration after the rows that were in the table, each with a
    time between the start and the end of the run, changes nothing else,
    and ends with its message.  It runs no iteration when [numIterations]
    is not positive. *)
Theorem X18_sessionUpdater_records_for_person_0 db instanceNum numIterations w :
  prepared db → healthy (Z.to_nat numIterations) w →
  ∃ added w',
    sessionUpdater instanceNum numIterations (Some db) w =
      Ret (SessionUpdaterFinished instanceNum) w' ∧
    sessionActivity w' = sessionActivity w ++ added ∧
    Z.of_nat (length added) = Z.max 0 numIterations ∧
    (∀ a, a ∈ added → sa_personId a = 0 ∧ clock w ≤ sa_dateTime a ≤ clock w') ∧
    person w' = person w ∧ stdout w' = stdout w.
Proof.
  intros Hp Hh.
  destruct (sessionUpdates_healthy db _ w Hp Hh)
    as (added & w' & Hrun & Hact & Hlen & Hrows & Hper & Hout).
  exists added, w'. unfold sessionUpdater, bind. rewrite Hrun.
  split; [done|]. split; [done|]. split; [lia|done].
Qed.

(** Three iterations of worker 4, a second apart. *)
Lemma X18_three_session_updates :
  ∃ w',
    sessionUpdater 4 3 (Some example_db) example_ticking =
      Ret (SessionUpdaterFinished 4) w' ∧
    sessionActivity w' = [mkActivity 1 0 9; mkActivity 2 0 10; mkActivity 3 0 11] ∧
    person w' = [mkPerson 2 "Sue" 5].
Proof.
  destruct (X18_sessionUpdater_records_for_person_0 example_db 4 3 example_ticking)
    as (added & w' & Hrun & _ & _ & _ & Hper & _).
  - apply example_db_prepared.
  - by vm_compute.
  - exists w'. split; [done|]. split; [|done].
    vm_compute in Hrun. injection Hrun as <-. by vm_compute.
Defined.

(** The rows of a table after an upsert: those of the id have its name,
    the others are rows of the table before. *)
Lemma elem_of_upserted_inv id name t r :
  r ∈ upserted id name t →
  (p_id r = id ∧ p_name r = name) ∨ (r ∈ t ∧ p_id r ≠ id).
Proof.
  unfold upserted, insert_or_ignore_person. rewrite update_person_ids.
  intros Hr.
  assert (r ∈ update_person id name t ∨ r = mkPerson id name 0) as [Hu| ->].
  { case_decide; [by left|].
    apply elem_of_app in Hr as [?|?%list_elem_of_singleton]; [by left|by right]. }
  - unfold update_person in Hu. apply list_elem_of_fmap_1 in Hu as (r0 & -> & Hr0).
    unfold updated. destruct (decide (p_id r0 = id)); simpl;
      [left; by split|right; by split].
  - left. by split.
Qed.

Lemma upserted_named_by_names id name t :
  names !! Z.to_nat id = Some name → named_by_names t →
  named_by_names (upserted id name t).
Proof.
  intros Hname Ht r Hr Hrange.
  apply elem_of_upserted_inv in Hr as [[-> ->]|[Hr _]]; [done|by apply Ht].
Qed.

Lemma personPuts_healthy rnd db i n w :
  prepared db → healthy (2 * n) w →
  NoDup (p_id <$> person w) → named_by_names (person w) →
  ∃ w',
    personPuts rnd i n (Some db) w = Ret tt w' ∧
    NoDup (p_id <$> person w') ∧ named_by_names (person w') ∧
    total_writes (person w') = total_writes (person w) + Z.of_nat n ∧
    (∀ id, ¬ (0 ≤ id < 4) → rows_with_id id (person w') = rows_with_id id (person w)) ∧
    sessionActivity w' = sessionActivity w ∧ stdout w' = stdout w.
Proof.
  intros Hp. revert i w. induction n as [|n IH]; intros i w Hh Hnd Hnamed.
  - exists w. simpl. repeat split; try done. lia.
  - replace (2 * S n)%nat with (2 + 2 * n)%nat in Hh by lia.
    apply healthy_add in Hh as [H2 Hrest].
    cbn [personPuts]. destruct (names_Intn4 (rnd i)) as [name Hname].
    rewrite Hname. unfold bind. simpl method.
    rewrite UpsertPerson_healthy by done.
    set (which := Intn4 (rnd i)) in *.
    set (w1 := set_person _ (advance (advance w))).
    assert (person w1 = upserted which name (person w)) as Hw1 by done.
    destruct (IH (S i) w1) as (w' & Hrun & Hnd' & Hnamed' & Htotal & Hother & Hact & Hout).
    { by apply healthy_set_person. }
    { rewrite Hw1. by apply upserted_NoDup. }
    { rewrite Hw1. by apply upserted_named_by_names. }
    exists w'. rewrite Hrun. split; [done|]. split; [done|]. split; [done|].
    split.
    { rewrite Htotal, Hw1. rewrite total_writes_upserted by done. lia. }
    split.
    { intros id Hid. rewrite Hother, Hw1 by done.
      apply rows_with_id_upserted_ne. pose proof (Intn4_range (rnd i)). intros ->.
      by apply Hid. }
    subst w1. simpl in *.
    by rewrite Hact, Hout, !advance_sessionActivity, !advance_stdout.
Qed.

(** X19. [personPutter], run on its own on a prepared handle and a backend
    that carries out its statements, only writes rows with the ids 0 to 3,
    each under the name [names] has for the id: a table whose rows of these
    ids carry these names is such a table afterwards, its other rows are
    as they were, and under the primary key it counts one write more for
    each iteration.  The activity table and the output are as they were. *)
Theorem X19_personPutter_writes_the_four_names rnd db instanceNum numIterations w :
  prepared db → healthy (2 * Z.to_nat numIterations) w →
  NoDup (p_id <$> person w) → named_by_names (person w) →
  ∃ w',
    personPutter rnd instanceNum numIterations (Some db) w =
      Ret (DbPutterFinished instanceNum) w' ∧
    NoDup (p_id <$> person w') ∧ named_by_names (person w') ∧
    total_writes (person w') = total_writes (person w) + Z.max 0 numIterations ∧
    (∀ id, ¬ (0 ≤ id < 4) → rows_with_id id (person w') = rows_with_id id (person w)) ∧
    sessionActivity w' = sessionActivity w ∧ stdout w' = stdout w.
Proof.
  intros Hp Hh Hnd Hnamed.
  destruct (personPuts_healthy rnd db 0 _ w Hp Hh Hnd Hnamed)
    as (w' & Hrun & Hnd' & Hnamed' & Htotal & Hother & Hact & Hout).
  exists w'. unfold personPutter, bind. rewrite Hrun.
  split; [done|]. split; [done|]. split; [done|]. split; [lia|done].
Qed.

(** Four iterations of worker 1 with the draws 6, 1, 2, 5 on the table
    with Sue as person 2. *)
Lemma X19_four_puts :
  ∃ w',
    personPutter (λ i, nth i [6; 1; 2; 5] 0) 1 4 (Some example_db) example_ticking =
      Ret (DbPutterFinished 1) w' ∧
    person w' = [mkPerson 2 "Sue" 7; mkPerson 1 "Jim" 1] ∧
    total_writes (person w') = 10.
Proof.
  destruct (X19_personPutter_writes_the_four_names (λ i, nth i [6; 1; 2; 5] 0)
              example_db 1 4 example_ticking)
    as (w' & Hrun & _ & _ & Htotal & _).
  - apply example_db_prepared.
  - by vm_compute.
  - change (NoDup [2]). apply NoDup_singleton.
  - intros r Hr _. change (r ∈ [mkPerson 2 "Sue" 5]) in Hr.
    by apply list_elem_of_singleton in Hr as ->.
  - exists w'. split; [done|]. split; [|exact Htotal].
    vm_compute in Hrun. injection Hrun as <-. by vm_compute.
Defined.

(** X20. A worker that is given a nil handle, as [main] gives it when [New]
    has returned an error, and has an iteration to run panics in the first
    one, before anything reaches the backend. *)
Theorem X20_workers_panic_on_a_nil_handle rnd instanceNum numIterations w :
  0 < numIterations →
  sessionUpdater instanceNum numIterations None w =
    Panic "runtime error: invalid memory address or nil pointer dereference" w ∧
  personPutter rnd instanceNum numIterations None w =
    Panic "runtime error: invalid memory address or nil pointer dereference" w.
Proof.
  intros Hn. unfold sessionUpdater, personPutter, bind.
  destruct (Z.to_nat numIterations) as [|n] eqn:Hnat; [lia|].
  cbn [sessionUpdates personPuts]. by destruct (names_Intn4 (rnd 0%nat)) as [name ->].
Qed.

(** Workers with 100 iterations after a [New] that could not open the
    file. *)
Lemma X20_workers_after_a_failed_New :
  sessionUpdater 0 100 None (start [] 0 []) =
    Panic "runtime error: invalid memory address or nil pointer dereference"
      (start [] 0 []) ∧
  personPutter (λ _, 0) 0 100 None (start [] 0 []) =
    Panic "runtime error: invalid memory address or nil pointer dereference"
      (start [] 0 []).
Proof. by apply X20_workers_panic_on_a_nil_handle. Defined.

(** X21. The report has at most one row for each person and one more, for
    the activities without a person, whatever the engine picks; and it has
    a row as soon as there is an activity. *)
Theorem X21_report_is_bounded_by_the_persons pick db w :
  prepared db → next_fault w = None →
  ∃ rows err w',
    PrintSessionActivity pick db w = Ret err w' ∧
    stdout w' = stdout w ++ (printed <$> rows) ∧
    (length rows ≤ length (person w) + 1)%nat ∧
    (sessionActivity w ≠ [] → rows ≠ []).
Proof.
  intros Hp Hh.
  exists (select_sessionActivity pick (sessionActivity w) (person w)).
  eexists _, _. rewrite PrintSessionActivity_eq, Hh by done.
  split; [done|]. split; [done|].
  set (js := left_outer_join (sessionActivity w) (person w)).
  assert (length (select_sessionActivity pick (sessionActivity w) (person w)) =
          length (remove_dups (group_key <$> js))) as Hlen.
  { rewrite select_sessionActivity_perm. unfold grouped_rows. cbv zeta.
    by rewrite length_fmap. }
  split.
  - rewrite Hlen.
    transitivity (length (None :: (Some <$> (p_id <$> person w)))).
    + apply submseteq_length, NoDup_submseteq; [apply NoDup_remove_dups|].
      intros k Hk. rewrite elem_of_remove_dups in Hk.
      apply list_elem_of_fmap_1 in Hk as (j & -> & Hj).
      apply elem_of_left_outer_join in Hj as [_ [[Hnone _]|(p & Hsome & Hin & _)]];
        unfold group_key.
      * rewrite Hnone. by left.
      * rewrite Hsome. right. simpl. by apply list_elem_of_fmap_2, list_elem_of_fmap_2.
    + simpl. rewrite !length_fmap. lia.
  - intros Hne Hnil. rewrite Hnil in Hlen. simpl in Hlen.
    destruct (sessionActivity w) as [|a acts] eqn:Hacts; [done|].
    assert (group_key <$> js ≠ []) as Hkeys.
    { subst js. unfold left_outer_join. rewrite bind_cons. unfold join_activity.
      destruct (rows_with_id _ _); simpl; done. }
    destruct (group_key <$> js) as [|k ks] eqn:Hk; [done|].
    assert (k ∈ remove_dups (k :: ks)) as Hin by (apply elem_of_remove_dups; by left).
    destruct (remove_dups (k :: ks)); [by apply elem_of_nil in Hin|done].
Qed.

(** Five activities of three ids, with one person on disk: two rows. *)
Lemma X21_two_rows_for_one_person :
  ∃ rows err w',
    PrintSessionActivity pick_first example_db
      (set_sessionActivity
         [mkActivity 1 7 3; mkActivity 2 2 4; mkActivity 3 8 5;
          mkActivity 4 2 6; mkActivity 5 7 7] example_stored)
      = Ret err w' ∧
    stdout w' = stdout example_stored ++ (printed <$> rows) ∧
    (length rows ≤ 2)%nat ∧ rows ≠ [].
Proof.
  destruct (X21_report_is_bounded_by_the_persons pick_first example_db
              (set_sessionActivity
                 [mkActivity 1 7 3; mkActivity 2 2 4; mkActivity 3 8 5;
                  mkActivity 4 2 6; mkActivity 5 7 7] example_stored))
    as (rows & err & w' & Hprint & Hout & Hlen & Hne).
  - apply example_db_prepared.
  - done.
  - exists rows, err, w'. split; [done|]. split; [exact Hout|].
    split; [exact Hlen|]. by apply Hne.
Defined.

(** X22. A query the backend fails is not noticed.  The SELECT of the
    report is run by the [rows.Next()] of the loop; when the backend fails
    it there the loop is over before its first row, and [rows.Err()], which
    holds the failure, is never read.  [PrintSessionActivity] then prints
    nothing and returns nil, as it does for a process without activities:
    it does not stop the process.  Tables, pool and registry are as they
    were. *)
Theorem X22_PrintSessionActivity_drops_a_failed_query pick db w msg :
  prepared db → next_fault w = Some msg →
  ∃ w',
    PrintSessionActivity pick db w = Ret None w' ∧
    stdout w' = stdout w ∧
    person w' = person w ∧ sessionActivity w' = sessionActivity w ∧
    pool w' = pool w ∧ drivers w' = drivers w.
Proof.
  intros Hp Hf. exists (advance w).
  rewrite PrintSessionActivity_eq, Hf by done.
  by rewrite advance_stdout, advance_person, advance_sessionActivity,
    advance_pool, advance_drivers.
Qed.

(** One activity of Sue and a locked database: nothing is reported. *)
Lemma X22_locked_database_reports_nothing :
  ∃ w',
    PrintSessionActivity pick_first example_db
      (set_sessionActivity [mkActivity 1 2 3] example_failing) = Ret None w' ∧
    stdout w' = stdout example_failing ∧
    sessionActivity w' = [mkActivity 1 2 3].
Proof.
  destruct (X22_PrintSessionActivity_drops_a_failed_query pick_first example_db
              (set_sessionActivity [mkActivity 1 2 3] example_failing)
              "database is locked")
    as (w' & Hprint & Hout & _ & Hact & _).
  - apply example_db_prepared.
  - by vm_compute.
  - by exists w'.
Defined.
